(** * Multi-input timestamp reconciliation of fftools_ffmpeg_opt.c

    A shallow embedding of [correct_input_start_times] and
    [apply_sync_offsets] (src/linux/src/fftools_ffmpeg_opt.c, lines 268-389)
    and the properties of the two passes.

    Conventions.
    - [int64_t] values are integers of [Z]; every arithmetic operation of the
      C code is followed by an explicit two's-complement wrap-around
      ([wrap64]).
    - [int] values ([copy_ts], [start_at_zero], [input_sync_ref]) are
      integers of [Z]; a C condition [if (x)] is [c_true x].
    - The array [input_files] is a list, [nb_input_files] is its length, and
      an assignment through the pointer [input_files[i]] is a list update at
      index [i].
    - [av_log] appends one entry to a log carried in the state. *)

From Stdlib Require Import Ascii String.
From stdpp Require Import base list.
From Stdlib Require Import ZArith Lia.

Local Open Scope Z_scope.

(** ** 64-bit signed arithmetic *)

Definition INT64_MAX : Z := 2 ^ 63 - 1.
Definition INT64_MIN : Z := - 2 ^ 63.

Definition in_int64 (z : Z) : Prop := INT64_MIN <= z <= INT64_MAX.

Definition wrap64 (z : Z) : Z := (z + 2 ^ 63) mod 2 ^ 64 - 2 ^ 63.

Definition add64 (a b : Z) : Z := wrap64 (a + b).
Definition sub64 (a b : Z) : Z := wrap64 (a - b).
Definition mul64 (a b : Z) : Z := wrap64 (a * b).
Definition neg64 (a : Z) : Z := wrap64 (- a).

(** C truth value of an [int], and the C operator [!]. *)
Definition c_true (x : Z) : bool := negb (x =? 0).
Definition c_not (x : Z) : Z := if x =? 0 then 1 else 0.

(** [FFMIN(a,b)] is [((a) > (b) ? (b) : (a))]. *)
Definition FFMIN (a b : Z) : Z := if a >? b then b else a.

(** ** Constants of the wrapped library

    The headers that declare them are not part of the sources at hand; the
    values are the ones of libavutil, libavformat and libavcodec. *)

(** [((int64_t)UINT64_C(0x8000000000000000))]: the "unknown" timestamp. *)
Definition AV_NOPTS_VALUE : Z := INT64_MIN.

(** Format flag: the format allows timestamp discontinuities. *)
Definition AVFMT_TS_DISCONT : Z := 512.

Definition EINVAL : Z := 22.
Definition AVERROR (e : Z) : Z := - e.

(** ** Data model *)

Record AVRational := { num : Z; den : Z }.

(** [AV_TIME_BASE_Q]: the global time unit, one microsecond. *)
Definition AV_TIME_BASE_Q : AVRational := {| num := 1; den := 1000000 |}.

Inductive AVDiscard :=
| AVDISCARD_NONE
| AVDISCARD_DEFAULT
| AVDISCARD_NONREF
| AVDISCARD_BIDIR
| AVDISCARD_NONINTRA
| AVDISCARD_NONKEY
| AVDISCARD_ALL.

Definition is_discard_all (d : AVDiscard) : bool :=
  match d with AVDISCARD_ALL => true | _ => false end.

Record AVStream := {
  discard : AVDiscard;
  st_start_time : Z;
  time_base : AVRational
}.

(** The part of [AVFormatContext] the two passes read: [iformat->flags],
    [start_time], [start_time_realtime] and [streams] ([nb_streams] is the
    length of the list). *)
Record AVFormatContext := {
  iformat_flags : Z;
  ctx_start_time : Z;
  start_time_realtime : Z;
  streams : list AVStream
}.

Record InputFile := {
  ctx : AVFormatContext;
  start_time : Z;
  start_time_effective : Z;
  ts_offset : Z;
  input_ts_offset : Z;
  input_sync_ref : Z
}.

Definition set_start_time_effective (f : InputFile) (v : Z) : InputFile :=
  {| ctx := ctx f; start_time := start_time f; start_time_effective := v;
     ts_offset := ts_offset f; input_ts_offset := input_ts_offset f;
     input_sync_ref := input_sync_ref f |}.

Definition set_ts_offset (f : InputFile) (v : Z) : InputFile :=
  {| ctx := ctx f; start_time := start_time f;
     start_time_effective := start_time_effective f;
     ts_offset := v; input_ts_offset := input_ts_offset f;
     input_sync_ref := input_sync_ref f |}.

(** ** Diagnostics *)

Inductive LogLevel := AV_LOG_FATAL | AV_LOG_ERROR | AV_LOG_INFO | AV_LOG_VERBOSE.

(** One constructor per format string, with the arguments of the call. *)
Inductive LogMsg :=
| MsgCorrecting (i : Z) (diff : Z)
| MsgNonExistent (i : Z) (ref : Z)
| MsgStartAtZeroRequired
| MsgResynced (i : Z) (ref : Z)
| MsgAdjusted (i : Z) (adjustment : Z) (ref : Z)
| MsgUnable (i : Z) (ref : Z).

Definition LogEntry : Type := LogLevel * LogMsg.

(** ** Program state: the input registry and the log *)

Record State := {
  input_files : list InputFile;
  log : list LogEntry
}.

Definition nb_input_files (st : State) : Z := Z.of_nat (length (input_files st)).

Definition av_log (st : State) (lvl : LogLevel) (m : LogMsg) : State :=
  {| input_files := input_files st; log := log st ++ [(lvl, m)] |}.

Definition store_input (st : State) (i : nat) (f : InputFile) : State :=
  {| input_files := <[i := f]> (input_files st); log := log st |}.

(** ** Sample inputs *)

(** Modelled from the spec: [av_rescale_q] is a function of libavutil, which
    is not among the sources; the spec describes it as "exact rational
    scaling (numerator × globalUnit / denominator ...)" of a 64-bit value.
    The properties below hold for any function in its place; this one
    serves to run the passes on sample inputs. *)
Definition rescale_q (a : Z) (bq cq : AVRational) : Z :=
  wrap64 (a * (num bq * den cq) / (num cq * den bq)).

Definition sample_stream (d : AVDiscard) (t : Z) : AVStream :=
  {| discard := d; st_start_time := t; time_base := AV_TIME_BASE_Q |}.

(** An input of a format without [AVFMT_TS_DISCONT] and without streams,
    given by the fields pass 2 reads. *)
Definition sample_input (effective ts its ref : Z) : InputFile :=
  {| ctx := {| iformat_flags := 0; ctx_start_time := effective;
               start_time_realtime := AV_NOPTS_VALUE; streams := [] |};
     start_time := AV_NOPTS_VALUE; start_time_effective := effective;
     ts_offset := ts; input_ts_offset := its; input_sync_ref := ref |}.

(** An input of a format with [AVFMT_TS_DISCONT], format start time [t] and
    the streams [sts]; [ts_offset] is 7 and [input_ts_offset] is 3. *)
Definition discont_input (t : Z) (sts : list AVStream) : InputFile :=
  {| ctx := {| iformat_flags := AVFMT_TS_DISCONT; ctx_start_time := t;
               start_time_realtime := AV_NOPTS_VALUE; streams := sts |};
     start_time := AV_NOPTS_VALUE; start_time_effective := t;
     ts_offset := 7; input_ts_offset := 3; input_sync_ref := -1 |}.

Definition registry (fs : list InputFile) : State :=
  {| input_files := fs; log := [] |}.

(** Streams starting at 5000, 2000 and 8000 microseconds, and a discarded
    one starting at 1000. *)
Definition three_streams : list AVStream :=
  [ sample_stream AVDISCARD_DEFAULT 5000; sample_stream AVDISCARD_NONE 2000;
    sample_stream AVDISCARD_ALL 1000; sample_stream AVDISCARD_DEFAULT 8000 ].

Definition st_three_streams : State :=
  registry [discont_input 3000 three_streams].

(** One input whose only stream is discarded. *)
Definition st_all_discarded : State :=
  registry [discont_input 0 [sample_stream AVDISCARD_ALL 1000]].

(** Input 1 is synced to input 0; the effective start times are 1000000 and
    1200000; input 0 has [ts_offset = 5] and [input_ts_offset = 0]. *)
Definition st_sync_pair : State :=
  registry [sample_input 1000000 5 0 (-1); sample_input 1200000 10 0 0].

(** Input 0 is synced to input 1, input 2 refers to a non-existent input. *)
Definition st_late_bad_ref : State :=
  registry [sample_input 1200000 10 0 1; sample_input 1000000 5 0 (-1);
            sample_input 0 0 0 7].

(** Inputs 0 and 1 refer to each other. *)
Definition st_mutual : State :=
  registry [sample_input 1000000 5 0 1; sample_input 1200000 10 0 0].

(** Input 0 is synced to input 1, whose start time is unknown. *)
Definition st_unknown_start : State :=
  registry [sample_input 1000000 5 0 1; sample_input AV_NOPTS_VALUE 10 0 (-1)].

(** ** android_support.c: [posix_memalign] *)

(** What the function reads and writes besides its arguments: [*memptr] and
    [errno].  A pointer is an integer, [NULL] is 0. *)
Record MemState := {
  memptr : Z;
  errno : Z
}.

Section PosixMemalign.

(** [sizeof(void * )]; [size_t] has [8 * sizeof(void * )] bits. *)
Variable ptr_bytes : Z.

(** [memalign] of the C library, from the value of [errno] before the call
    and its two arguments to its result and the value of [errno] after. *)
Variable memalign : Z -> Z -> Z -> Z * Z.

Definition posix_memalign (ms : MemState) (alignment size : Z)
  : Z * MemState :=
  if negb (Z.land alignment ((alignment - 1) mod 2 ^ (8 * ptr_bytes)) =? 0)
     || (alignment =? 0)
  then (EINVAL, ms)
  else if negb (alignment mod ptr_bytes =? 0) then (EINVAL, ms)
  else
    let '(p, e) := memalign (errno ms) alignment size in
    let ms := {| memptr := p; errno := e |} in
    if memptr ms =? 0 then (errno ms, ms) else (0, ms).

End PosixMemalign.

(** ** Option handlers of fftools_ffmpeg_opt.c *)

Module Opt.

(** *** C strings

    A C string is the list of the codes of its characters before the
    terminating NUL.  The functions below are those of the C library and of
    libavutil's avstring.h that the handlers call, with the behaviour their
    documentation fixes. *)

Definition cstring : Type := list Z.

Definition cstr (s : string) : cstring :=
  map (fun a => Z.of_N (N_of_ascii a)) (list_ascii_of_string s).

(** [strcmp(a, b) == 0] *)
Fixpoint streq (a b : cstring) : bool :=
  match a, b with
  | [], [] => true
  | x :: a', y :: b' => (x =? y) && streq a' b'
  | _, _ => false
  end.

(** [strncmp(a, b, n) == 0]: the first [n] characters agree, or both strings
    end before and agree. *)
Definition strneq (a b : cstring) (n : nat) : bool :=
  streq (take n a) (take n b).

(** [strchr(s, c)] for a character [c] other than NUL: the offset of its
    first occurrence, [None] for a null pointer. *)
Fixpoint strchr (s : cstring) (c : Z) : option nat :=
  match s with
  | [] => None
  | x :: s' => if x =? c then Some O else S <$> strchr s' c
  end.

(** [av_strlcpy(dst, src, size)]: the contents of [dst] after the call, the
    first [size - 1] characters of [src]. *)
Definition av_strlcpy (src : cstring) (size : nat) : cstring :=
  take (size - 1) src.

(** *** Constants and enumerations of the headers *)

(** [FFERRTAG('E','X','I','T')] *)
Definition AVERROR_EXIT : Z := - (69 + 88 * 2 ^ 8 + 73 * 2 ^ 16 + 84 * 2 ^ 24).

(** Format flag: the demuxer opens no file. *)
Definition AVFMT_NOFILE : Z := 1.

Inductive AVMediaType :=
| AVMEDIA_TYPE_UNKNOWN
| AVMEDIA_TYPE_VIDEO
| AVMEDIA_TYPE_AUDIO
| AVMEDIA_TYPE_DATA
| AVMEDIA_TYPE_SUBTITLE
| AVMEDIA_TYPE_ATTACHMENT.

Definition is_video (t : AVMediaType) : bool :=
  match t with AVMEDIA_TYPE_VIDEO => true | _ => false end.

(** [enum VideoSyncMethod] *)
Definition VSYNC_AUTO : Z := -1.
Definition VSYNC_PASSTHROUGH : Z := 0.
Definition VSYNC_CFR : Z := 1.
Definition VSYNC_VFR : Z := 2.
Definition VSYNC_VSCFR : Z := 3.
Definition VSYNC_DROP : Z := 4.

(** *** What the handlers do besides computing: the trace *)

Inductive LogLevel :=
| AV_LOG_STDERR
| AV_LOG_FATAL
| AV_LOG_ERROR
| AV_LOG_WARNING
| AV_LOG_INFO
| AV_LOG_VERBOSE.

(** One constructor per format string, with the arguments of the call. *)
Inductive Msg :=
| MsgInvalidStreamid (arg opt : cstring)
| MsgInvalidFpsMode (arg : cstring) (file_idx st_idx : Z)
| MsgVsyncNumberDeprecated
| MsgVsyncDeprecated
| MsgBothYandN
| MsgOverwritePrompt (filename : cstring)
| MsgNotOverwriting
| MsgAlreadyExists (filename : cstring)
| MsgSameAsInput (filename : cstring) (i : Z)
| MsgCannotEditInPlace
| MsgAssumingNorm (norm : cstring)
| MsgNoNorm
| MsgPrefixTarget
| MsgOrSetFramerate
| MsgUnknownTarget (arg : cstring).

(** The calls with an effect outside the function, in the order they are
    made.  [parse_option] and [opt_default] are the functions of
    fftools_cmdutils.c; the handlers below ignore what they return. *)
Inductive Event :=
| av_log (lvl : LogLevel) (m : Msg)
| term_exit
| signal_SIGINT_SIG_DFL
| read_yesno
| term_init
| parse_option (opt arg : cstring)
| opt_default (opt arg : cstring)
| set_mux_preload (num den : Z)
| av_dict_copy_codec_opts
| av_dict_copy_format_opts.

Definition Trace : Type := list Event.


(** *** [opt_streamid] *)

Section Streamid.

(** [AVDictionary] and [av_dict_set] of libavutil: from the dictionary, the
    key, the value and the flags to the value returned and the new
    dictionary. *)
Variable AVDictionary : Type.
Variable av_dict_set : AVDictionary -> cstring -> cstring -> Z -> Z * AVDictionary.

(** [o->streamid] and the trace. *)
Record StreamidState := {
  streamid : AVDictionary;
  streamid_trace : Trace
}.

Definition opt_streamid (o : StreamidState) (opt arg : cstring)
  : Z * StreamidState :=
  let idx_str := av_strlcpy arg 16 in
  match strchr idx_str 58 with
  | None =>
    (AVERROR EINVAL,
     {| streamid := streamid o;
        streamid_trace :=
          streamid_trace o ++ [av_log AV_LOG_FATAL (MsgInvalidStreamid arg opt)] |})
  | Some p =>
    let key := take p idx_str in
    let value := drop (S p) idx_str in
    let '(ret, d) := av_dict_set (streamid o) key value 0 in
    (ret, {| streamid := d; streamid_trace := streamid_trace o |})
  end.

End Streamid.

Arguments streamid {_} _.
Arguments streamid_trace {_} _.

(** *** [parse_and_set_vsync] and [opt_vsync] *)

(** The object [vsync_var] points to: the global [video_sync_method], or
    the field of an output stream. *)
Inductive VsyncVar := ptr_video_sync_method | ptr_stream_vsync.

Record VsyncState := {
  video_sync_method : Z;
  stream_vsync : Z;
  vsync_trace : Trace
}.

Definition vsync_read (p : VsyncVar) (st : VsyncState) : Z :=
  match p with
  | ptr_video_sync_method => video_sync_method st
  | ptr_stream_vsync => stream_vsync st
  end.

Definition vsync_write (p : VsyncVar) (v : Z) (st : VsyncState) : VsyncState :=
  match p with
  | ptr_video_sync_method =>
    {| video_sync_method := v; stream_vsync := stream_vsync st;
       vsync_trace := vsync_trace st |}
  | ptr_stream_vsync =>
    {| video_sync_method := video_sync_method st; stream_vsync := v;
       vsync_trace := vsync_trace st |}
  end.

Definition vsync_log (st : VsyncState) (lvl : LogLevel) (m : Msg) : VsyncState :=
  {| video_sync_method := video_sync_method st;
     stream_vsync := stream_vsync st;
     vsync_trace := vsync_trace st ++ [av_log lvl m] |}.

Section Vsync.

(** [av_strcasecmp] of libavutil. *)
Variable av_strcasecmp : cstring -> cstring -> Z.

(** [parse_number] of fftools_cmdutils.c with the type [OPT_INT]: from the
    context, the string and the bounds to the value returned and the number
    stored, an integer. *)
Variable parse_number : cstring -> cstring -> Z -> Z -> Z * Z.

Definition parse_and_set_vsync
           (arg : cstring) (vsync_var : VsyncVar)
           (file_idx st_idx is_global : Z) (st : VsyncState)
  : Z * VsyncState :=
  let names : Z + VsyncState :=
    if av_strcasecmp arg (cstr "cfr") =? 0
    then inr (vsync_write vsync_var VSYNC_CFR st)
    else if av_strcasecmp arg (cstr "vfr") =? 0
    then inr (vsync_write vsync_var VSYNC_VFR st)
    else if av_strcasecmp arg (cstr "passthrough") =? 0
    then inr (vsync_write vsync_var VSYNC_PASSTHROUGH st)
    else if av_strcasecmp arg (cstr "drop") =? 0
    then inr (vsync_write vsync_var VSYNC_DROP st)
    else if negb (c_true is_global) && (av_strcasecmp arg (cstr "auto") =? 0)
    then inr (vsync_write vsync_var VSYNC_AUTO st)
    else if negb (c_true is_global) then inl (AVERROR EINVAL)
    else inr st in
  match names with
  | inl ret =>
    (ret, vsync_log st AV_LOG_FATAL (MsgInvalidFpsMode arg file_idx st_idx))
  | inr st =>
    if c_true is_global && (vsync_read vsync_var st =? VSYNC_AUTO) then
      let '(ret, num) := parse_number (cstr "vsync") arg VSYNC_AUTO VSYNC_VFR in
      if ret <? 0 then (ret, st)
      else
        let st := vsync_write ptr_video_sync_method num st in
        (0, vsync_log st AV_LOG_WARNING MsgVsyncNumberDeprecated)
    else (0, st)
  end.

Definition opt_vsync (st : VsyncState) (opt arg : cstring) : Z * VsyncState :=
  let st := vsync_log st AV_LOG_WARNING MsgVsyncDeprecated in
  parse_and_set_vsync arg ptr_video_sync_method (-1) (-1) 1 st.

End Vsync.

(** *** [assert_file_overwrite] *)

(** What the function learns from outside: the result of
    [avio_find_protocol_name] ([None] for a null pointer), of [avio_check]
    and, when it asks, of [read_yesno]. *)
Record OverwriteEnv := {
  proto_name : option cstring;
  avio_check : Z;
  yesno : Z
}.

(** The part of [input_files[i]->ctx] the function reads. *)
Record InputUrl := {
  url_iformat_flags : Z;
  url : cstring
}.

(** The loop over [input_files] from the index [i]: [Some] is the return
    inside the loop. *)
Fixpoint same_as_input (filename : cstring) (files : list InputUrl) (i : nat)
         (tr : Trace) : option (Z * Trace) :=
  match files with
  | [] => None
  | file :: rest =>
    if c_true (Z.land (url_iformat_flags file) AVFMT_NOFILE)
    then same_as_input filename rest (S i) tr
    else if streq filename (url file) then
      Some (AVERROR EINVAL,
            tr ++ [av_log AV_LOG_FATAL (MsgSameAsInput filename (Z.of_nat i));
                   av_log AV_LOG_WARNING MsgCannotEditInPlace])
    else same_as_input filename rest (S i) tr
  end.

Section Overwrite.

(** The globals [file_overwrite], [no_file_overwrite], [stdin_interaction]
    and the registry. *)
Variables file_overwrite no_file_overwrite stdin_interaction : Z.
Variable input_urls : list InputUrl.

Definition is_file_protocol (env : OverwriteEnv) : bool :=
  match proto_name env with
  | Some p => streq p (cstr "file")
  | None => false
  end.

(** The block [if (!file_overwrite) { ... }]: [inl] is a return. *)
Definition overwrite_check (env : OverwriteEnv) (filename : cstring)
           (tr : Trace) : (Z * Trace) + Trace :=
  if negb (c_true file_overwrite) then
    if is_file_protocol env && (avio_check env =? 0) then
      if c_true stdin_interaction && negb (c_true no_file_overwrite) then
        let tr := tr ++ [av_log AV_LOG_STDERR (MsgOverwritePrompt filename);
                         term_exit; signal_SIGINT_SIG_DFL; read_yesno] in
        if negb (c_true (yesno env)) then
          inl (AVERROR_EXIT, tr ++ [av_log AV_LOG_FATAL MsgNotOverwriting])
        else inr (tr ++ [term_init])
      else
        inl (AVERROR_EXIT,
             tr ++ [av_log AV_LOG_FATAL (MsgAlreadyExists filename)])
    else inr tr
  else inr tr.

Definition assert_file_overwrite (env : OverwriteEnv) (filename : cstring)
           (tr : Trace) : Z * Trace :=
  if c_true file_overwrite && c_true no_file_overwrite then
    (AVERROR EINVAL, tr ++ [av_log AV_LOG_STDERR MsgBothYandN])
  else
    match overwrite_check env filename tr with
    | inl r => r
    | inr tr =>
      if is_file_protocol env then
        match same_as_input filename input_urls 0 tr with
        | Some r => r
        | None => (0, tr)
        end
      else (0, tr)
    end.

End Overwrite.

(** *** [opt_target] *)

(** The part of a stream the function reads: [codecpar->codec_type] and
    [time_base]. *)
Record TargetStream := {
  codec_type : AVMediaType;
  target_time_base : AVRational
}.

Inductive Norm := PAL | NTSC | FILM | UNKNOWN.

Definition is_unknown (n : Norm) : bool :=
  match n with UNKNOWN => true | _ => false end.

Definition is_pal (n : Norm) : bool :=
  match n with PAL => true | _ => false end.

(** [frame_rates[norm]] *)
Definition frame_rates (n : Norm) : cstring :=
  match n with
  | PAL => cstr "25"
  | NTSC => cstr "30000/1001"
  | FILM => cstr "24000/1001"
  | UNKNOWN => []
  end.

(** The inner loop over the streams of one input, with its [break]s. *)
Fixpoint peek_streams (sts : list TargetStream) : Norm :=
  match sts with
  | [] => UNKNOWN
  | st :: rest =>
    if negb (is_video (codec_type st)) then peek_streams rest
    else
      let fr := Z.quot (den (target_time_base st) * 1000)
                       (num (target_time_base st)) in
      if fr =? 25000 then PAL
      else if (fr =? 29970) || (fr =? 23976) then NTSC
      else peek_streams rest
  end.

(** The outer loop over the inputs. *)
Fixpoint peek_files (files : list (list TargetStream)) : Norm :=
  match files with
  | [] => UNKNOWN
  | sts :: rest =>
    let norm := peek_streams sts in
    if negb (is_unknown norm) then norm else peek_files rest
  end.

(** [opt_video_codec] and [opt_audio_codec], as [opt_target] uses them. *)
Definition opt_video_codec (tr : Trace) (opt arg : cstring) : Trace :=
  tr ++ [parse_option (cstr "codec:v") arg].

Definition opt_audio_codec (tr : Trace) (opt arg : cstring) : Trace :=
  tr ++ [parse_option (cstr "codec:a") arg].

(** The norm and the rest of [arg] after the first [if] chain, and the
    trace. *)
Definition target_norm (files : list (list TargetStream)) (arg : cstring)
           (tr : Trace) : Norm * cstring * Trace :=
  if strneq arg (cstr "pal-") 4 then (PAL, drop 4 arg, tr)
  else if strneq arg (cstr "ntsc-") 5 then (NTSC, drop 5 arg, tr)
  else if strneq arg (cstr "film-") 5 then (FILM, drop 5 arg, tr)
  else
    let norm := peek_files files in
    if negb (is_unknown norm)
    then (norm, arg,
          tr ++ [av_log AV_LOG_INFO
                        (MsgAssumingNorm
                           (if is_pal norm then cstr "PAL" else cstr "NTSC"))])
    else (norm, arg, tr).

Definition opt_target (files : list (list TargetStream)) (tr : Trace)
           (opt arg : cstring) : Z * Trace :=
  let '(norm, arg, tr) := target_norm files arg tr in
  if is_unknown norm then
    (AVERROR EINVAL,
     tr ++ [av_log AV_LOG_FATAL MsgNoNorm; av_log AV_LOG_FATAL MsgPrefixTarget;
            av_log AV_LOG_FATAL MsgOrSetFramerate])
  else
    let pal_or (pal other : cstring) := if is_pal norm then pal else other in
    let finish (tr : Trace) :=
      (0, tr ++ [av_dict_copy_codec_opts; av_dict_copy_format_opts]) in
    if streq arg (cstr "vcd") then
      let tr := opt_video_codec tr (cstr "c:v") (cstr "mpeg1video") in
      let tr := opt_audio_codec tr (cstr "c:a") (cstr "mp2") in
      finish
        (tr ++ [parse_option (cstr "f") (cstr "vcd");
                parse_option (cstr "s") (pal_or (cstr "352x288") (cstr "352x240"));
                parse_option (cstr "r") (frame_rates norm);
                opt_default (cstr "g") (pal_or (cstr "15") (cstr "18"));
                opt_default (cstr "b:v") (cstr "1150000");
                opt_default (cstr "maxrate:v") (cstr "1150000");
                opt_default (cstr "minrate:v") (cstr "1150000");
                opt_default (cstr "bufsize:v") (cstr "327680");
                opt_default (cstr "b:a") (cstr "224000");
                parse_option (cstr "ar") (cstr "44100");
                parse_option (cstr "ac") (cstr "2");
                opt_default (cstr "packetsize") (cstr "2324");
                opt_default (cstr "muxrate") (cstr "1411200");
                set_mux_preload (36000 + 3 * 1200) 90000])
    else if streq arg (cstr "svcd") then
      let tr := opt_video_codec tr (cstr "c:v") (cstr "mpeg2video") in
      let tr := opt_audio_codec tr (cstr "c:a") (cstr "mp2") in
      finish
        (tr ++ [parse_option (cstr "f") (cstr "svcd");
                parse_option (cstr "s") (pal_or (cstr "480x576") (cstr "480x480"));
                parse_option (cstr "r") (frame_rates norm);
                parse_option (cstr "pix_fmt") (cstr "yuv420p");
                opt_default (cstr "g") (pal_or (cstr "15") (cstr "18"));
                opt_default (cstr "b:v") (cstr "2040000");
                opt_default (cstr "maxrate:v") (cstr "2516000");
                opt_default (cstr "minrate:v") (cstr "0");
                opt_default (cstr "bufsize:v") (cstr "1835008");
                opt_default (cstr "scan_offset") (cstr "1");
                opt_default (cstr "b:a") (cstr "224000");
                parse_option (cstr "ar") (cstr "44100");
                opt_default (cstr "packetsize") (cstr "2324")])
    else if streq arg (cstr "dvd") then
      let tr := opt_video_codec tr (cstr "c:v") (cstr "mpeg2video") in
      let tr := opt_audio_codec tr (cstr "c:a") (cstr "ac3") in
      finish
        (tr ++ [parse_option (cstr "f") (cstr "dvd");
                parse_option (cstr "s") (pal_or (cstr "720x576") (cstr "720x480"));
                parse_option (cstr "r") (frame_rates norm);
                parse_option (cstr "pix_fmt") (cstr "yuv420p");
                opt_default (cstr "g") (pal_or (cstr "15") (cstr "18"));
                opt_default (cstr "b:v") (cstr "6000000");
                opt_default (cstr "maxrate:v") (cstr "9000000");
                opt_default (cstr "minrate:v") (cstr "0");
                opt_default (cstr "bufsize:v") (cstr "1835008");
                opt_default (cstr "packetsize") (cstr "2048");
                opt_default (cstr "muxrate") (cstr "10080000");
                opt_default (cstr "b:a") (cstr "448000");
                parse_option (cstr "ar") (cstr "48000")])
    else if strneq arg (cstr "dv") 2 then
      finish
        (tr ++ [parse_option (cstr "f") (cstr "dv");
                parse_option (cstr "s") (pal_or (cstr "720x576") (cstr "720x480"));
                parse_option (cstr "pix_fmt")
                             (if strneq arg (cstr "dv50") 4 then cstr "yuv422p"
                              else pal_or (cstr "yuv420p") (cstr "yuv411p"));
                parse_option (cstr "r") (frame_rates norm);
                parse_option (cstr "ar") (cstr "48000");
                parse_option (cstr "ac") (cstr "2")])
    else
      (AVERROR EINVAL, tr ++ [av_log AV_LOG_ERROR (MsgUnknownTarget arg)]).

End Opt.

Section Passes.

(** The globals [copy_ts] and [start_at_zero], which the passes only read. *)
Variable copy_ts : Z.
Variable start_at_zero : Z.

(** [av_rescale_q] of libavutil: rescales a 64-bit integer from one rational
    time base to another.  It is a function of the wrapped library. *)
Variable av_rescale_q : Z -> AVRational -> AVRational -> Z.

(** ** Pass 1: [correct_input_start_times] *)

(** A stream takes part in the minimum unless the inner loop [continue]s. *)
Definition stream_counts (st : AVStream) : bool :=
  negb (is_discard_all (discard st) || (st_start_time st =? AV_NOPTS_VALUE)).

(** [av_rescale_q(st->start_time, st->time_base, AV_TIME_BASE_Q)]: the start
    time of the stream in microseconds. *)
Definition stream_start_us (st : AVStream) : Z :=
  av_rescale_q (st_start_time st) (time_base st) AV_TIME_BASE_Q.

(** One iteration of the inner loop over [is->streams]. *)
Definition stream_step (new_start_time : Z) (st : AVStream) : Z :=
  if is_discard_all (discard st) || (st_start_time st =? AV_NOPTS_VALUE)
  then new_start_time
  else FFMIN new_start_time (stream_start_us st).

(** The inner loop, from [new_start_time = INT64_MAX]. *)
Definition streams_new_start_time (sts : list AVStream) : Z :=
  fold_left stream_step sts INT64_MAX.

(** The [ts_offset] assigned in the [if (diff)] branch, before
    [input_ts_offset] is added. *)
Definition corrected_ts_offset (ifile : InputFile) (new_start_time : Z) : Z :=
  let is_ := ctx ifile in
  if c_true copy_ts && c_true start_at_zero then neg64 new_start_time
  else if negb (c_true copy_ts) then
    let abs_start_seek :=
      add64 (ctx_start_time is_)
            (if negb (start_time ifile =? AV_NOPTS_VALUE)
             then start_time ifile else 0) in
    if abs_start_seek >? new_start_time
    then neg64 abs_start_seek else neg64 new_start_time
  else if c_true copy_ts then 0
  else ts_offset ifile.

(** The body of the outer loop on the input [ifile] of index [i]: the new
    value of [*ifile] and the messages logged. *)
Definition correct_file (i : nat) (ifile : InputFile)
  : InputFile * list LogEntry :=
  let is_ := ctx ifile in
  let ifile := set_start_time_effective ifile (ctx_start_time is_) in
  if (ctx_start_time is_ =? AV_NOPTS_VALUE)
     || negb (c_true (Z.land (iformat_flags is_) AVFMT_TS_DISCONT))
  then (ifile, [])
  else
    let new_start_time := streams_new_start_time (streams is_) in
    let diff := sub64 new_start_time (ctx_start_time is_) in
    if c_true diff then
      let ifile := set_start_time_effective ifile new_start_time in
      let ifile := set_ts_offset ifile (corrected_ts_offset ifile new_start_time) in
      let ifile := set_ts_offset ifile
                     (add64 (ts_offset ifile) (input_ts_offset ifile)) in
      (ifile, [(AV_LOG_VERBOSE, MsgCorrecting (Z.of_nat i) diff)])
    else (ifile, []).

Definition correct_body (i : nat) (st : State) : State :=
  match input_files st !! i with
  | None => st
  | Some ifile =>
      let '(ifile', msgs) := correct_file i ifile in
      {| input_files := <[i := ifile']> (input_files st);
         log := log st ++ msgs |}
  end.

(** [for (int i = ...; i < nb_input_files; i++)] with [count] iterations
    left. *)
Fixpoint correct_loop (i : nat) (count : nat) (st : State) : State :=
  match count with
  | O => st
  | S count' => correct_loop (S i) count' (correct_body i st)
  end.

Definition correct_input_start_times (st : State) : State :=
  correct_loop 0 (length (input_files st)) st.

(** ** Pass 2: [apply_sync_offsets] *)

(** What one iteration of a loop does next: go on with the next index, or
    leave the function with a return value. *)
Inductive Step :=
| Continue (st : State)
| Return (ret : Z) (st : State).

(** The choice of the pair [(self_start_time, ref_start_time)]; [None] is
    [start_times_set = 0]. *)
Definition pick_start_times (self ref : InputFile) : option (Z * Z) :=
  if negb (start_time_realtime (ctx self) =? AV_NOPTS_VALUE)
     && negb (start_time_realtime (ctx ref) =? AV_NOPTS_VALUE)
  then Some (start_time_realtime (ctx self), start_time_realtime (ctx ref))
  else if negb (start_time_effective self =? AV_NOPTS_VALUE)
          && negb (start_time_effective ref =? AV_NOPTS_VALUE)
  then Some (start_time_effective self, start_time_effective ref)
  else None.

(** [start_time == AV_NOPTS_VALUE ? 0 : start_time] *)
Definition seek_start (f : InputFile) : Z :=
  if start_time f =? AV_NOPTS_VALUE then 0 else start_time f.

(** The value assigned to [adjustment]. *)
Definition sync_adjustment (self ref : InputFile)
           (self_start_time ref_start_time : Z) : Z :=
  let self_seek_start := seek_start self in
  let ref_seek_start := seek_start ref in
  add64 (add64 (sub64 self_start_time ref_start_time)
               (mul64 (c_not copy_ts) (sub64 self_seek_start ref_seek_start)))
        (input_ts_offset ref).

(** The body of the loop for the index [i]. *)
Definition sync_body (i : nat) (st : State) : Step :=
  match input_files st !! i with
  | None => Continue st
  | Some self =>
    let r := input_sync_ref self in
    if (r =? -1) || (r =? Z.of_nat i) then Continue st
    else if (r >=? nb_input_files st) || (r <? -1) then
      Return (AVERROR EINVAL)
             (av_log st AV_LOG_FATAL (MsgNonExistent (Z.of_nat i) r))
    else if c_true copy_ts && negb (c_true start_at_zero) then
      Return (AVERROR EINVAL) (av_log st AV_LOG_FATAL MsgStartAtZeroRequired)
    else
      match input_files st !! Z.to_nat r with
      | None => Continue st
      | Some ref =>
        if negb (input_sync_ref ref =? -1) && negb (input_sync_ref ref =? r)
        then Continue (av_log st AV_LOG_ERROR (MsgResynced (Z.of_nat i) r))
        else
          match pick_start_times self ref with
          | Some (self_start_time, ref_start_time) =>
            let adjustment :=
              sync_adjustment self ref self_start_time ref_start_time in
            let st := store_input st i
                        (set_ts_offset self (add64 (ts_offset self) adjustment)) in
            Continue (av_log st AV_LOG_INFO
                             (MsgAdjusted (Z.of_nat i) adjustment r))
          | None =>
            Continue (av_log st AV_LOG_INFO (MsgUnable (Z.of_nat i) r))
          end
      end
  end.

(** [for (int i = ...; i < nb_input_files; i++)] with [count] iterations
    left; [Continue] is the normal end of the loop. *)
Fixpoint sync_loop (i : nat) (count : nat) (st : State) : Step :=
  match count with
  | O => Continue st
  | S count' =>
    match sync_body i st with
    | Continue st' => sync_loop (S i) count' st'
    | Return ret st' => Return ret st'
    end
  end.

(** The function: its return value and the state it leaves. *)
Definition apply_sync_offsets (st : State) : Z * State :=
  match sync_loop 0 (length (input_files st)) st with
  | Continue st' => (0, st')
  | Return ret st' => (ret, st')
  end.

(** ** Vocabulary of the proofs *)

(** The state a step leaves. *)
Definition step_state (s : Step) : State :=
  match s with Continue st => st | Return _ st => st end.

(** An input without its [ts_offset], the one field pass 2 writes. *)
Definition frame (f : InputFile) : InputFile := set_ts_offset f 0.

(** The two fatal tests of the loop body of pass 2, for the input [self] of
    index [i] in a registry of [n] inputs, and the message logged then. *)
Definition sync_fatal (n : Z) (i : nat) (self : InputFile) : bool :=
  let r := input_sync_ref self in
  negb ((r =? -1) || (r =? Z.of_nat i))
  && ((r >=? n) || (r <? -1) || (c_true copy_ts && negb (c_true start_at_zero))).

Definition sync_fatal_msg (n : Z) (i : nat) (self : InputFile) : LogMsg :=
  let r := input_sync_ref self in
  if (r >=? n) || (r <? -1) then MsgNonExistent (Z.of_nat i) r
  else MsgStartAtZeroRequired.

(** The end of the loop body of pass 2, after the two fatal tests, as a
    function of the input [self] and of the input [ref] it refers to. *)
Definition sync_tail (i : nat) (st : State) (self ref : InputFile) : Step :=
  let r := input_sync_ref self in
  if negb (input_sync_ref ref =? -1) && negb (input_sync_ref ref =? r)
  then Continue (av_log st AV_LOG_ERROR (MsgResynced (Z.of_nat i) r))
  else
    match pick_start_times self ref with
    | Some (self_start_time, ref_start_time) =>
      let adjustment :=
        sync_adjustment self ref self_start_time ref_start_time in
      Continue (av_log (store_input st i
                          (set_ts_offset self
                             (add64 (ts_offset self) adjustment)))
                       AV_LOG_INFO (MsgAdjusted (Z.of_nat i) adjustment r))
    | None => Continue (av_log st AV_LOG_INFO (MsgUnable (Z.of_nat i) r))
    end.

(** ** Facts on the 64-bit arithmetic *)

Lemma wrap64_range (z : Z) : in_int64 (wrap64 z).
Proof.
  unfold in_int64, wrap64, INT64_MIN, INT64_MAX.
  pose proof (Z.mod_pos_bound (z + 2 ^ 63) (2 ^ 64) ltac:(lia)). lia.
Qed.

Lemma wrap64_id (z : Z) : in_int64 z -> wrap64 z = z.
Proof.
  unfold in_int64, wrap64, INT64_MIN, INT64_MAX. intros Hz.
  rewrite Z.mod_small; lia.
Qed.

Lemma wrap64_diff (z : Z) : exists k, wrap64 z = z + 2 ^ 64 * k.
Proof.
  exists (- ((z + 2 ^ 63) / 2 ^ 64)). unfold wrap64.
  rewrite Z.mod_eq by lia. lia.
Qed.

Lemma wrap64_congr (a b k : Z) : a = b + 2 ^ 64 * k -> wrap64 a = wrap64 b.
Proof.
  intros ->. unfold wrap64. f_equal.
  replace (b + 2 ^ 64 * k + 2 ^ 63) with (b + 2 ^ 63 + k * 2 ^ 64) by lia.
  apply Z.mod_add. lia.
Qed.

(** A difference of two 64-bit values wraps to zero only if they are equal. *)
Lemma sub64_zero (a b : Z) :
  in_int64 a -> in_int64 b -> sub64 a b = 0 -> a = b.
Proof.
  unfold sub64. intros Ha Hb H0.
  destruct (wrap64_diff (a - b)) as [k Hk]. rewrite H0 in Hk.
  unfold in_int64, INT64_MIN, INT64_MAX in *. lia.
Qed.

(** Wrapping after every operation of a sum with one product is wrapping
    once at the end. *)
Lemma wrap64_sum (t x c d o : Z) :
  wrap64 (t + wrap64 (wrap64 (wrap64 x + wrap64 (c * wrap64 d)) + o)) =
  wrap64 (t + (x + c * d + o)).
Proof.
  destruct (wrap64_diff d) as [k1 ->].
  destruct (wrap64_diff (c * (d + 2 ^ 64 * k1))) as [k2 ->].
  destruct (wrap64_diff x) as [k3 ->].
  match goal with
  | |- context [wrap64 (?a + ?b) + o] =>
    destruct (wrap64_diff (a + b)) as [k4 ->]
  end.
  match goal with
  | |- context [t + wrap64 ?a] => destruct (wrap64_diff a) as [k5 ->]
  end.
  apply (wrap64_congr _ _ (c * k1 + k2 + k3 + k4 + k5)). lia.
Qed.

Lemma c_true_true (x : Z) : c_true x = true <-> x <> 0.
Proof. unfold c_true. destruct (Z.eqb_spec x 0); simpl; split; congruence. Qed.

Lemma c_true_false (x : Z) : c_true x = false <-> x = 0.
Proof. unfold c_true. destruct (Z.eqb_spec x 0); simpl; split; congruence. Qed.

(** ** Facts on pass 1 *)

Lemma FFMIN_min (a b : Z) : FFMIN a b = Z.min a b.
Proof. unfold FFMIN. destruct (Z.gtb_spec a b); lia. Qed.

(** The inner loop computes the least of its start value and of the start
    times of the streams that count. *)
Lemma fold_stream_step_min (sts : list AVStream) (acc : Z) :
  let m := fold_left stream_step sts acc in
  m <= acc /\
  (forall s, s ∈ sts -> stream_counts s = true -> m <= stream_start_us s) /\
  (m = acc \/ exists s, s ∈ sts /\ stream_counts s = true /\ m = stream_start_us s).
Proof.
  cbv zeta. revert acc. induction sts as [|s sts IH]; intros acc; simpl.
  - split; [lia|]. split; [|by left]. intros s Hs. by apply elem_of_nil in Hs.
  - destruct (IH (stream_step acc s)) as (Hle & Hall & Hex).
    assert (Hstep : stream_step acc s <= acc /\
                    (stream_counts s = true ->
                     stream_step acc s = Z.min acc (stream_start_us s)) /\
                    (stream_counts s = false -> stream_step acc s = acc)).
    { unfold stream_step, stream_counts.
      destruct (is_discard_all (discard s) || (st_start_time s =? AV_NOPTS_VALUE));
        simpl; rewrite ?FFMIN_min; repeat split; intros; try congruence; lia. }
    destruct Hstep as (Hs1 & Hs2 & Hs3).
    split; [lia|]. split.
    + intros s' Hs' Hc. apply elem_of_cons in Hs' as [->|Hs'].
      * pose proof (Hs2 Hc). lia.
      * by apply Hall.
    + destruct Hex as [Hm | (s' & Hin & Hc & Hm)].
      * destruct (stream_counts s) eqn:Hc.
        -- pose proof (Hs2 eq_refl) as Hs2'.
           destruct (Z.min_spec acc (stream_start_us s)) as [[_ Hmin]|[_ Hmin]].
           ++ left. lia.
           ++ right. exists s. split; [apply elem_of_cons; by left|].
              split; [done | lia].
        -- left. pose proof (Hs3 eq_refl). lia.
      * right. exists s'. split; [apply elem_of_cons; by right | done].
Qed.

(** Pass 1 writes [start_time_effective] and [ts_offset] only. *)
Lemma correct_file_frame (i : nat) (f : InputFile) :
  let f' := fst (correct_file i f) in
  ctx f' = ctx f /\ start_time f' = start_time f /\
  input_ts_offset f' = input_ts_offset f /\
  input_sync_ref f' = input_sync_ref f.
Proof.
  unfold correct_file.
  repeat match goal with |- context [if ?c then _ else _] => destruct c end;
    simpl; auto.
Qed.

(** The index is used in the message only. *)
Lemma correct_file_index (i j : nat) (f : InputFile) :
  fst (correct_file i f) = fst (correct_file j f).
Proof.
  unfold correct_file.
  repeat match goal with |- context [if ?c then _ else _] => destruct c end;
    reflexivity.
Qed.

Lemma correct_file_idem (i : nat) (f : InputFile) :
  fst (correct_file i (fst (correct_file i f))) = fst (correct_file i f).
Proof.
  unfold correct_file, corrected_ts_offset.
  destruct f as [c st eff ts its ref]; simpl.
  destruct ((ctx_start_time c =? AV_NOPTS_VALUE)
            || negb (c_true (Z.land (iformat_flags c) AVFMT_TS_DISCONT))) eqn:Hskip;
    simpl; rewrite ?Hskip; simpl; [reflexivity|].
  destruct (c_true (sub64 (streams_new_start_time (streams c)) (ctx_start_time c)))
    eqn:Hdiff; simpl; rewrite ?Hskip, ?Hdiff; simpl; [|reflexivity].
  destruct (c_true copy_ts), (c_true start_at_zero); simpl; reflexivity.
Qed.

Lemma correct_body_lookup (i j : nat) (st : State) :
  input_files (correct_body i st) !! j =
  if decide (i = j) then (fun f => fst (correct_file i f)) <$> input_files st !! j
  else input_files st !! j.
Proof.
  unfold correct_body.
  destruct (input_files st !! i) as [f|] eqn:Hi.
  - destruct (correct_file i f) as [f' msgs] eqn:Hf. simpl.
    destruct (decide (i = j)) as [->|Hne].
    + rewrite list_lookup_insert_eq by (by eapply lookup_lt_Some).
      rewrite Hi. simpl. by rewrite Hf.
    + by rewrite list_lookup_insert_ne.
  - destruct (decide (i = j)) as [->|Hne]; [by rewrite Hi | done].
Qed.

Lemma correct_loop_lookup (count i j : nat) (st : State) :
  input_files (correct_loop i count st) !! j =
  if decide (i <= j < i + count)%nat
  then (fun f => fst (correct_file j f)) <$> input_files st !! j
  else input_files st !! j.
Proof.
  revert i st. induction count as [|count IH]; intros i st; simpl.
  - destruct (decide (i <= j < i + 0)%nat); [lia | done].
  - rewrite IH, correct_body_lookup.
    destruct (decide (S i <= j < S i + count)%nat),
             (decide (i = j)), (decide (i <= j < i + S count)%nat);
      try lia; subst; done.
Qed.

(** Pass 1 applies [correct_file] to every input. *)
Lemma correct_input_start_times_lookup (st : State) (i : nat) :
  input_files (correct_input_start_times st) !! i =
  (fun f => fst (correct_file i f)) <$> input_files st !! i.
Proof.
  unfold correct_input_start_times. rewrite correct_loop_lookup.
  destruct (decide (0 <= i < 0 + length (input_files st))%nat) as [|Hout];
    [done|].
  rewrite (lookup_ge_None_2 (input_files st) i) by lia. done.
Qed.

Lemma stream_counts_spec (s : AVStream) :
  stream_counts s = true <->
  discard s <> AVDISCARD_ALL /\ st_start_time s <> AV_NOPTS_VALUE.
Proof.
  unfold stream_counts.
  destruct (Z.eqb_spec (st_start_time s) AV_NOPTS_VALUE), (discard s);
    simpl; split; first [intros [? ?] | intros ?]; try split; congruence.
Qed.

(** ** Properties of pass 1 *)

(** C5: for an input whose format allows discontinuous timestamps, whose
    format start time is known, and which has at least one stream that is
    not marked [AVDISCARD_ALL] and has a known start time, pass 1 sets
    [start_time_effective] to the minimum, over all such streams, of the
    stream start time rescaled to microseconds: the value is the rescaled
    start time of one of these streams and is below that of every one of
    them.  (The fields hold 64-bit values.) *)
Theorem correct_sets_effective_to_minimum
  (st : State) (i : nat) (ifile : InputFile) :
  input_files st !! i = Some ifile ->
  c_true (Z.land (iformat_flags (ctx ifile)) AVFMT_TS_DISCONT) = true ->
  ctx_start_time (ctx ifile) <> AV_NOPTS_VALUE ->
  in_int64 (ctx_start_time (ctx ifile)) ->
  Forall (fun s => in_int64 (stream_start_us s)) (streams (ctx ifile)) ->
  (exists s, s ∈ streams (ctx ifile) /\
             discard s <> AVDISCARD_ALL /\ st_start_time s <> AV_NOPTS_VALUE) ->
  exists ifile',
    input_files (correct_input_start_times st) !! i = Some ifile' /\
    (exists s, s ∈ streams (ctx ifile) /\
               discard s <> AVDISCARD_ALL /\
               st_start_time s <> AV_NOPTS_VALUE /\
               start_time_effective ifile' = stream_start_us s) /\
    (forall s, s ∈ streams (ctx ifile) ->
               discard s <> AVDISCARD_ALL ->
               st_start_time s <> AV_NOPTS_VALUE ->
               start_time_effective ifile' <= stream_start_us s).
Proof.
  intros Hi Hflag Hknown Hstart Hrange (s0 & Hs0 & Hd0 & Ht0).
  exists (fst (correct_file i ifile)).
  rewrite correct_input_start_times_lookup, Hi. split; [done|].
  pose proof (fold_stream_step_min (streams (ctx ifile)) INT64_MAX)
    as (Hmax & Hall & Hex).
  fold (streams_new_start_time (streams (ctx ifile))) in Hmax, Hall, Hex.
  set (m := streams_new_start_time (streams (ctx ifile))) in *.
  (* the minimum is the start time of a stream that counts *)
  assert (Hmin : exists s, s ∈ streams (ctx ifile) /\ stream_counts s = true /\
                           m = stream_start_us s).
  { destruct Hex as [Hm | Hex]; [|done].
    exists s0. assert (Hc0 : stream_counts s0 = true)
      by (apply stream_counts_spec; done).
    split; [done|]. split; [done|].
    pose proof (Hall s0 Hs0 Hc0) as Hle.
    rewrite Forall_forall in Hrange. pose proof (Hrange s0 Hs0) as [_ Hup].
    lia. }
  (* whatever the branch, the field holds the minimum *)
  assert (Heff : start_time_effective (fst (correct_file i ifile)) = m).
  { unfold correct_file. fold m.
    destruct (Z.eqb_spec (ctx_start_time (ctx ifile)) AV_NOPTS_VALUE) as [|_];
      [done|].
    rewrite Hflag. simpl.
    destruct (c_true (sub64 m (ctx_start_time (ctx ifile)))) eqn:Hdiff;
      simpl; [done|].
    apply c_true_false in Hdiff. symmetry. apply sub64_zero; try done.
    destruct Hmin as (s & Hs & _ & ->).
    rewrite Forall_forall in Hrange. by apply Hrange. }
  rewrite Heff. split.
  - destruct Hmin as (s & Hs & Hc & Hm). exists s.
    apply stream_counts_spec in Hc as [? ?]. done.
  - intros s Hs Hd Ht. apply Hall; [done|]. by apply stream_counts_spec.
Qed.

(** C4: for an input that pass 1 corrects with a nonzero delta, with [T] the
    new effective start time, [ts_offset] becomes: [-T] if [copy_ts] and
    [start_at_zero] are both set; else, if [copy_ts] is off,
    [-max(abs_start_seek, T)] with [abs_start_seek] the format start time
    plus the user start time (zero if unknown); else [0]; and in every case
    [input_ts_offset] is then added.  (64-bit arithmetic.) *)
Theorem correct_ts_offset_formula
  (st : State) (i : nat) (ifile : InputFile) :
  input_files st !! i = Some ifile ->
  c_true (Z.land (iformat_flags (ctx ifile)) AVFMT_TS_DISCONT) = true ->
  ctx_start_time (ctx ifile) <> AV_NOPTS_VALUE ->
  sub64 (streams_new_start_time (streams (ctx ifile)))
        (ctx_start_time (ctx ifile)) <> 0 ->
  exists ifile',
    input_files (correct_input_start_times st) !! i = Some ifile' /\
    let T := start_time_effective ifile' in
    let abs_start_seek :=
      add64 (ctx_start_time (ctx ifile))
            (if start_time ifile =? AV_NOPTS_VALUE then 0 else start_time ifile) in
    T = streams_new_start_time (streams (ctx ifile)) /\
    ts_offset ifile' =
    add64 (if c_true copy_ts && c_true start_at_zero then neg64 T
           else if negb (c_true copy_ts) then neg64 (Z.max abs_start_seek T)
           else 0)
          (input_ts_offset ifile).
Proof.
  intros Hi Hflag Hknown Hdiff.
  exists (fst (correct_file i ifile)).
  rewrite correct_input_start_times_lookup, Hi. split; [done|].
  unfold correct_file, corrected_ts_offset.
  destruct (Z.eqb_spec (ctx_start_time (ctx ifile)) AV_NOPTS_VALUE) as [|_];
    [done|].
  rewrite Hflag. simpl.
  apply c_true_true in Hdiff. rewrite Hdiff. simpl. split; [done|].
  destruct (c_true copy_ts), (c_true start_at_zero); simpl; try done.
  all: destruct (Z.eqb_spec (start_time ifile) AV_NOPTS_VALUE); simpl.
  all: match goal with
       | |- context [?a >? ?b] =>
         destruct (Z.gtb_spec a b); f_equal; f_equal; lia
       end.
Qed.

(** C7: running pass 1 twice leaves the registry as one run leaves it: every
    input, hence every [start_time_effective] and [ts_offset], is the same
    after the second pass as after the first. *)
Theorem correct_input_start_times_idempotent (st : State) :
  input_files (correct_input_start_times (correct_input_start_times st)) =
  input_files (correct_input_start_times st).
Proof.
  apply list_eq. intros i.
  rewrite !correct_input_start_times_lookup.
  destruct (input_files st !! i) as [f|]; simpl; [|done].
  by rewrite correct_file_idem.
Qed.

(** ** Facts on pass 2 *)

Ltac cmp_cases :=
  repeat match goal with
         | |- context [?a =? ?b] => destruct (Z.eqb_spec a b); try lia
         | |- context [?a >=? ?b] => destruct (Z.geb_spec a b); try lia
         | |- context [?a <? ?b] => destruct (Z.ltb_spec a b); try lia
         end; simpl.

Lemma frame_fields (a b : InputFile) :
  frame a = frame b ->
  ctx a = ctx b /\ start_time a = start_time b /\
  start_time_effective a = start_time_effective b /\
  input_ts_offset a = input_ts_offset b /\
  input_sync_ref a = input_sync_ref b.
Proof. destruct a, b. unfold frame, set_ts_offset. simpl. intros [=]. auto. Qed.

Lemma frame_set_ts_offset (f : InputFile) (v : Z) :
  frame (set_ts_offset f v) = frame f.
Proof. reflexivity. Qed.

Lemma pick_start_times_frame (self a b : InputFile) :
  frame a = frame b -> pick_start_times self a = pick_start_times self b.
Proof.
  intros (Hc & _ & He & _)%frame_fields. unfold pick_start_times.
  by rewrite Hc, He.
Qed.

Lemma sync_adjustment_frame (self a b : InputFile) (s rs : Z) :
  frame a = frame b -> sync_adjustment self a s rs = sync_adjustment self b s rs.
Proof.
  intros (_ & Hs & _ & Ho & _)%frame_fields.
  unfold sync_adjustment, seek_start. by rewrite Hs, Ho.
Qed.

Lemma frames_length (l1 l2 : list InputFile) :
  frame <$> l1 = frame <$> l2 -> length l1 = length l2.
Proof. intros H. by rewrite <- (length_fmap frame l1), H, length_fmap. Qed.

Lemma frames_lookup (l1 l2 : list InputFile) (j : nat) (f : InputFile) :
  frame <$> l1 = frame <$> l2 -> l2 !! j = Some f ->
  exists f', l1 !! j = Some f' /\ frame f' = frame f.
Proof.
  intros H Hj. pose proof (list_lookup_fmap frame l1 j) as H1.
  rewrite H, list_lookup_fmap, Hj in H1. simpl in H1.
  destruct (l1 !! j) as [f'|]; simpl in H1; [|done].
  exists f'. split; [done | congruence].
Qed.

(** *** One iteration *)

(** An iteration writes the [ts_offset] of its own input at most, and only
    adds to the log. *)
Lemma sync_body_frame (i : nat) (st : State) :
  let st' := step_state (sync_body i st) in
  frame <$> input_files st' = frame <$> input_files st /\
  (forall j, j <> i -> input_files st' !! j = input_files st !! j) /\
  log st `prefix_of` log st'.
Proof.
  unfold sync_body.
  destruct (input_files st !! i) as [self|] eqn:Hi; simpl; [|done].
  repeat match goal with
         | |- context [if ?c then _ else _] => destruct c
         | |- context [match ?o with Some _ => _ | None => _ end] =>
           destruct o as [[? ?]|] || destruct o
         end; simpl; try done; try (split; [done|]; split; [done|];
                                    by apply prefix_app_r).
  split; [|split].
  - rewrite list_fmap_insert, frame_set_ts_offset.
    apply list_insert_id. by rewrite list_lookup_fmap, Hi.
  - intros j Hj. by rewrite list_lookup_insert_ne.
  - by apply prefix_app_r.
Qed.

(** The iteration returns exactly when one of the two fatal tests holds. *)
Lemma sync_body_fatal (i : nat) (st : State) (self : InputFile) :
  input_files st !! i = Some self ->
  sync_fatal (nb_input_files st) i self = true ->
  sync_body i st =
  Return (AVERROR EINVAL)
         (av_log st AV_LOG_FATAL (sync_fatal_msg (nb_input_files st) i self)).
Proof.
  intros Hi. unfold sync_body, sync_fatal, sync_fatal_msg. rewrite Hi.
  destruct ((input_sync_ref self =? -1) || (input_sync_ref self =? Z.of_nat i));
    simpl; [done|].
  destruct ((input_sync_ref self >=? nb_input_files st)
            || (input_sync_ref self <? -1)); simpl; [done|].
  by intros ->.
Qed.

Lemma sync_body_not_fatal (i : nat) (st : State) (self : InputFile) :
  input_files st !! i = Some self ->
  sync_fatal (nb_input_files st) i self = false ->
  exists st', sync_body i st = Continue st'.
Proof.
  intros Hi. unfold sync_body, sync_fatal. rewrite Hi.
  destruct ((input_sync_ref self =? -1) || (input_sync_ref self =? Z.of_nat i));
    simpl; [by eexists|].
  destruct ((input_sync_ref self >=? nb_input_files st)
            || (input_sync_ref self <? -1)); simpl; [done|].
  intros ->.
  repeat match goal with
         | |- context [if ?c then _ else _] => destruct c
         | |- context [match ?o with Some _ => _ | None => _ end] =>
           destruct o as [[? ?]|] || destruct o
         end; by eexists.
Qed.

Lemma sync_fatal_frame (n : Z) (i : nat) (a b : InputFile) :
  frame a = frame b -> sync_fatal n i a = sync_fatal n i b.
Proof.
  intros (_ & _ & _ & _ & Hr)%frame_fields. unfold sync_fatal. by rewrite Hr.
Qed.

(** Neither fatal test holds for a reference that is in range when the flags
    allow synchronization. *)
Lemma sync_fatal_false (n : Z) (i : nat) (self : InputFile) :
  -1 <= input_sync_ref self < n ->
  c_true copy_ts && negb (c_true start_at_zero) = false ->
  sync_fatal n i self = false.
Proof.
  intros Hr Hflags. unfold sync_fatal. rewrite Hflags.
  cmp_cases; reflexivity.
Qed.

Lemma sync_body_no_ref (i : nat) (st : State) (self : InputFile) :
  input_files st !! i = Some self ->
  input_sync_ref self = -1 \/ input_sync_ref self = Z.of_nat i ->
  sync_body i st = Continue st.
Proof.
  intros Hi Hr. unfold sync_body. rewrite Hi.
  destruct Hr as [-> | ->]; cmp_cases; reflexivity.
Qed.

(** The part of the body after the two fatal tests. *)
Lemma sync_body_past_fatal (i : nat) (st : State) (self ref : InputFile) :
  input_files st !! i = Some self ->
  input_sync_ref self <> -1 ->
  input_sync_ref self <> Z.of_nat i ->
  sync_fatal (nb_input_files st) i self = false ->
  input_files st !! Z.to_nat (input_sync_ref self) = Some ref ->
  sync_body i st = sync_tail i st self ref.
Proof.
  intros Hi H1 H2 Hf Href. unfold sync_body, sync_tail, sync_fatal in *.
  rewrite Hi, Href.
  destruct (Z.eqb_spec (input_sync_ref self) (-1)); [done|].
  destruct (Z.eqb_spec (input_sync_ref self) (Z.of_nat i)); [done|].
  simpl in *.
  destruct ((input_sync_ref self >=? nb_input_files st)
            || (input_sync_ref self <? -1)); simpl in *; [done|].
  rewrite Hf. reflexivity.
Qed.

(** *** The loop *)

Lemma sync_loop_split (a b i : nat) (st : State) :
  sync_loop i (a + b) st =
  match sync_loop i a st with
  | Continue st' => sync_loop (i + a) b st'
  | Return ret st' => Return ret st'
  end.
Proof.
  revert i st. induction a as [|a IH]; intros i st; simpl.
  - by rewrite Nat.add_0_r.
  - destruct (sync_body i st) as [st1|ret st1]; [|done].
    rewrite IH. by replace (S i + a)%nat with (i + S a)%nat by lia.
Qed.

(** The loop over the indices [i .. i+count-1] writes the [ts_offset] of
    these inputs at most, only adds to the log, and returns [AVERROR(EINVAL)]
    if it returns. *)
Lemma sync_loop_frame (count i : nat) (st : State) :
  let res := sync_loop i count st in
  frame <$> input_files (step_state res) = frame <$> input_files st /\
  (forall j, (j < i \/ i + count <= j)%nat ->
             input_files (step_state res) !! j = input_files st !! j) /\
  log st `prefix_of` log (step_state res) /\
  (forall ret st', res = Return ret st' -> ret = AVERROR EINVAL).
Proof.
  cbv zeta. revert i st. induction count as [|count IH]; intros i st; simpl.
  - done.
  - pose proof (sync_body_frame i st) as (Hf & Hl & Hp). cbv zeta in *.
    destruct (sync_body i st) as [st1|ret st1] eqn:Hb; simpl in *.
    + destruct (IH (S i) st1) as (Hf' & Hl' & Hp' & Hr').
      split; [congruence|]. split; [|split; [by etrans|done]].
      intros j Hj. rewrite Hl' by lia. apply Hl. lia.
    + split; [done|]. split; [intros j Hj; apply Hl; lia|]. split; [done|].
      intros ret' st' [= <- <-].
      unfold sync_body in Hb.
      repeat match type of Hb with
             | context [match ?o with Some _ => _ | None => _ end] =>
               destruct o as [[? ?]|] || destruct o
             | context [if ?c then _ else _] => destruct c
             end; congruence.
Qed.

(** If the loop returns, it does so at an index where a fatal test holds,
    straight after the iterations before that index. *)
Lemma sync_loop_Return_inv (count i : nat) (st : State) (ret : Z) (st' : State) :
  sync_loop i count st = Return ret st' ->
  exists k st_k self,
    (i <= k < i + count)%nat /\
    sync_loop i (k - i) st = Continue st_k /\
    input_files st !! k = Some self /\
    sync_fatal (nb_input_files st) k self = true /\
    ret = AVERROR EINVAL /\
    st' = av_log st_k AV_LOG_FATAL (sync_fatal_msg (nb_input_files st) k self).
Proof.
  revert i st. induction count as [|count IH]; intros i st; simpl; [done|].
  destruct (sync_body i st) as [st1|ret1 st1] eqn:Hb.
  - intros Hloop.
    pose proof (sync_body_frame i st) as (Hf & Hl & _). rewrite Hb in Hf, Hl.
    simpl in Hf, Hl.
    destruct (IH _ _ Hloop) as (k & st_k & self & Hk & Hpre & Hself & Hfat & Hr & Hst).
    assert (Hn : nb_input_files st1 = nb_input_files st)
      by (unfold nb_input_files; by rewrite (frames_length _ _ Hf)).
    exists k, st_k, self. split; [lia|]. split.
    { replace (k - i)%nat with (S (k - S i)) by lia. simpl. by rewrite Hb. }
    rewrite <- Hl by lia. rewrite <- Hn. done.
  - intros [= -> ->].
    destruct (input_files st !! i) as [self|] eqn:Hi;
      [|by (unfold sync_body in Hb; rewrite Hi in Hb)].
    destruct (sync_fatal (nb_input_files st) i self) eqn:Hfat.
    + rewrite (sync_body_fatal _ _ _ Hi Hfat) in Hb. injection Hb as <- <-.
      exists i, st, self. rewrite Nat.sub_diag. simpl.
      repeat split; try done; lia.
    + destruct (sync_body_not_fatal _ _ _ Hi Hfat) as [st2 Hc]. congruence.
Qed.

(** The loop returns if a fatal test holds at some index, and the inputs
    from that index on are as before. *)
Lemma sync_loop_fatal_at (count i k : nat) (st : State) (self : InputFile) :
  (i <= k < i + count)%nat ->
  input_files st !! k = Some self ->
  sync_fatal (nb_input_files st) k self = true ->
  exists st',
    sync_loop i count st = Return (AVERROR EINVAL) st' /\
    forall j, (k <= j)%nat -> input_files st' !! j = input_files st !! j.
Proof.
  intros Hk Hself Hfat.
  replace count with ((k - i) + S (i + count - S k))%nat by lia.
  rewrite sync_loop_split.
  pose proof (sync_loop_frame (k - i) i st) as (Hf & Hl & _ & Hr).
  cbv zeta in *.
  destruct (sync_loop i (k - i) st) as [st1|ret st1]; simpl in *.
  - assert (Hn : nb_input_files st1 = nb_input_files st)
      by (unfold nb_input_files; by rewrite (frames_length _ _ Hf)).
    replace (i + (k - i))%nat with k by lia.
    rewrite (sync_body_fatal k st1 self); [| rewrite Hl by lia; done | by rewrite Hn].
    eexists. split; [done|]. simpl. intros j Hj. apply Hl. lia.
  - rewrite (Hr ret st1 eq_refl). eexists. split; [done|].
    intros j Hj. apply Hl. lia.
Qed.

Lemma sync_tail_frame (i : nat) (st : State) (self a b : InputFile) :
  frame a = frame b -> sync_tail i st self a = sync_tail i st self b.
Proof.
  intros Hab. unfold sync_tail.
  rewrite (pick_start_times_frame self a b Hab).
  destruct (frame_fields a b Hab) as (_ & _ & _ & _ & ->).
  destruct (pick_start_times self b) as [[s rs]|]; [|done].
  by rewrite (sync_adjustment_frame self a b s rs Hab).
Qed.

(** *** The whole run *)

(** The loop reaches the index [k] if no fatal test holds before it. *)
Lemma sync_reach (k : nat) (st : State) :
  (forall j f, (j < k)%nat -> input_files st !! j = Some f ->
               sync_fatal (nb_input_files st) j f = false) ->
  exists st_k, sync_loop 0 k st = Continue st_k.
Proof.
  intros Hnf. destruct (sync_loop 0 k st) as [st_k|ret st'] eqn:Hl;
    [by eexists|].
  apply sync_loop_Return_inv in Hl
    as (j & _ & f & Hj & _ & Hf & Hfat & _).
  rewrite (Hnf j f) in Hfat; [done | lia | done].
Qed.

(** What the run makes of the input [k], from the state [st_k] in which the
    loop reaches it. *)
Lemma sync_run_at (k : nat) (st st_k : State) (self : InputFile) :
  input_files st !! k = Some self ->
  sync_loop 0 k st = Continue st_k ->
  let res := sync_body k st_k in
  let final := snd (apply_sync_offsets st) in
  frame <$> input_files st_k = frame <$> input_files st /\
  nb_input_files st_k = nb_input_files st /\
  input_files st_k !! k = Some self /\
  input_files final !! k = input_files (step_state res) !! k /\
  log (step_state res) `prefix_of` log final /\
  (forall ret st', res = Return ret st' -> apply_sync_offsets st = (ret, st')).
Proof.
  intros Hk Hpre. cbv zeta.
  pose proof (sync_loop_frame k 0 st) as (Hf & Hl & _). rewrite Hpre in Hf, Hl.
  simpl in Hf, Hl.
  split; [done|].
  split; [unfold nb_input_files; by rewrite (frames_length _ _ Hf)|].
  split; [rewrite Hl by lia; done|].
  unfold apply_sync_offsets.
  pose proof (lookup_lt_Some _ _ _ Hk) as Hlt.
  replace (length (input_files st))
    with (k + S (length (input_files st) - S k))%nat by lia.
  rewrite sync_loop_split, Hpre. simpl.
  destruct (sync_body k st_k) as [st1|ret st1]; simpl.
  - pose proof (sync_loop_frame (length (input_files st) - S k) (S k) st1)
      as (_ & Hl1 & Hp1 & _). cbv zeta in *.
    destruct (sync_loop (S k) (length (input_files st) - S k) st1);
      simpl in *; (split; [apply Hl1; lia|]); (split; [done|]); done.
  - split; [done|]. split; [done|]. by intros ret' st' [= <- <-].
Qed.

(** The input [k] is as before if the loop returns before it reaches [k]. *)
Lemma sync_run_before (k : nat) (st : State) (ret : Z) (st' : State) :
  (k < length (input_files st))%nat ->
  sync_loop 0 k st = Return ret st' ->
  apply_sync_offsets st = (ret, st') /\
  input_files st' !! k = input_files st !! k.
Proof.
  intros Hlt Hpre.
  pose proof (sync_loop_frame k 0 st) as (_ & Hl & _). rewrite Hpre in Hl.
  simpl in Hl. split; [|apply Hl; lia].
  unfold apply_sync_offsets.
  replace (length (input_files st))
    with (k + (length (input_files st) - k))%nat by lia.
  by rewrite sync_loop_split, Hpre.
Qed.

(** Under the conditions that take the loop to the input [i] and the body
    past its two fatal tests, the iteration for [i] is [sync_tail] on the
    inputs [self] and [ref] as they were before the run. *)
Lemma sync_run_iteration (i : nat) (st : State) (self ref : InputFile) :
  input_files st !! i = Some self ->
  input_sync_ref self <> -1 ->
  input_sync_ref self <> Z.of_nat i ->
  (forall j f, (j <= i)%nat -> input_files st !! j = Some f ->
               sync_fatal (nb_input_files st) j f = false) ->
  input_files st !! Z.to_nat (input_sync_ref self) = Some ref ->
  exists st_i,
    sync_loop 0 i st = Continue st_i /\
    sync_body i st_i = sync_tail i st_i self ref /\
    let final := snd (apply_sync_offsets st) in
    input_files final !! i =
      input_files (step_state (sync_tail i st_i self ref)) !! i /\
    log (step_state (sync_tail i st_i self ref)) `prefix_of` log final /\
    input_files st_i !! i = Some self.
Proof.
  intros Hi H1 H2 Hnf Href.
  destruct (sync_reach i st) as [st_i Hpre].
  { intros j f Hj. apply Hnf. lia. }
  exists st_i. split; [done|].
  pose proof (sync_run_at i st st_i self Hi Hpre)
    as (Hf & Hn & Hi' & Hfin & Hlog & _). cbv zeta in *.
  destruct (frames_lookup _ _ _ _ Hf Href) as (ref_i & Href_i & Hframe).
  assert (Hb : sync_body i st_i = sync_tail i st_i self ref).
  { rewrite <- (sync_tail_frame i st_i self ref_i ref Hframe).
    apply sync_body_past_fatal; try done.
    rewrite Hn. by apply (Hnf i). }
  rewrite Hb in Hfin, Hlog. done.
Qed.

Lemma flags_allow_sync :
  (copy_ts <> 0 -> start_at_zero <> 0) ->
  c_true copy_ts && negb (c_true start_at_zero) = false.
Proof.
  intros H. unfold c_true.
  destruct (Z.eqb_spec copy_ts 0); [done|].
  destruct (Z.eqb_spec start_at_zero 0); [|done]. by destruct H.
Qed.

(** The three ways [sync_tail] ends. *)
Lemma sync_tail_chained (i : nat) (st : State) (self ref : InputFile) :
  input_sync_ref ref <> -1 ->
  input_sync_ref ref <> input_sync_ref self ->
  sync_tail i st self ref =
  Continue (av_log st AV_LOG_ERROR
                   (MsgResynced (Z.of_nat i) (input_sync_ref self))).
Proof. intros H1 H2. unfold sync_tail. cmp_cases. reflexivity. Qed.

Lemma sync_tail_adjust (i : nat) (st : State) (self ref : InputFile) (s rs : Z) :
  input_sync_ref ref = -1 \/ input_sync_ref ref = input_sync_ref self ->
  pick_start_times self ref = Some (s, rs) ->
  sync_tail i st self ref =
  Continue (av_log (store_input st i
                      (set_ts_offset self
                         (add64 (ts_offset self)
                                (sync_adjustment self ref s rs))))
                   AV_LOG_INFO
                   (MsgAdjusted (Z.of_nat i) (sync_adjustment self ref s rs)
                                (input_sync_ref self))).
Proof.
  intros Hc Hp. unfold sync_tail. rewrite Hp.
  destruct Hc as [Hc | Hc]; rewrite Hc; cmp_cases; reflexivity.
Qed.

Lemma sync_tail_unable (i : nat) (st : State) (self ref : InputFile) :
  input_sync_ref ref = -1 \/ input_sync_ref ref = input_sync_ref self ->
  pick_start_times self ref = None ->
  sync_tail i st self ref =
  Continue (av_log st AV_LOG_INFO
                   (MsgUnable (Z.of_nat i) (input_sync_ref self))).
Proof.
  intros Hc Hp. unfold sync_tail. rewrite Hp.
  destruct Hc as [Hc | Hc]; rewrite Hc; cmp_cases; reflexivity.
Qed.

(** The adjustment, as one wrap-around of the exact sum. *)
Lemma add64_sync_adjustment (self ref : InputFile) (t s rs : Z) :
  add64 t (sync_adjustment self ref s rs) =
  wrap64 (t + ((s - rs)
               + (if c_true copy_ts then 0 else 1)
                 * (seek_start self - seek_start ref)
               + input_ts_offset ref)).
Proof.
  unfold sync_adjustment, add64, sub64, mul64. rewrite wrap64_sum.
  unfold c_not, c_true. by destruct (copy_ts =? 0).
Qed.

(** What the run does to an input that is synchronized: the conclusion
    shared by the properties of the adjustment. *)
Lemma sync_run_adjusts (st : State) (i : nat) (self ref : InputFile) (s rs : Z) :
  input_files st !! i = Some self ->
  0 <= input_sync_ref self < nb_input_files st ->
  input_sync_ref self <> Z.of_nat i ->
  input_files st !! Z.to_nat (input_sync_ref self) = Some ref ->
  input_sync_ref ref = -1 \/ input_sync_ref ref = input_sync_ref self ->
  (copy_ts <> 0 -> start_at_zero <> 0) ->
  (forall j f, (j < i)%nat -> input_files st !! j = Some f ->
               -1 <= input_sync_ref f < nb_input_files st) ->
  pick_start_times self ref = Some (s, rs) ->
  let final := snd (apply_sync_offsets st) in
  input_files final !! i =
    Some (set_ts_offset self
            (add64 (ts_offset self) (sync_adjustment self ref s rs))) /\
  (AV_LOG_INFO,
   MsgAdjusted (Z.of_nat i) (sync_adjustment self ref s rs)
               (input_sync_ref self)) ∈ log final.
Proof.
  intros Hi Hr Hne Href Hc Hflags Hbefore Hp.
  destruct (sync_run_iteration i st self ref) as (st_i & _ & _ & Hfin & Hlog & Hi');
    try done; [lia | |].
  { intros j f Hj Hf. apply sync_fatal_false; [|by apply flags_allow_sync].
    destruct (decide (j = i)) as [->|]; [|apply (Hbefore j f); [lia | done]].
    rewrite Hi in Hf. injection Hf as <-. lia. }
  cbv zeta in *.
  rewrite (sync_tail_adjust i st_i self ref s rs Hc Hp) in Hfin, Hlog.
  simpl in Hfin, Hlog. split.
  - rewrite Hfin. apply list_lookup_insert_eq. by eapply lookup_lt_Some.
  - eapply elem_of_prefix; [|exact Hlog].
    apply elem_of_app. right. by apply list_elem_of_singleton.
Qed.

(** What the run does to an input whose iteration is reached and ends
    without a change: it is as before, and the message is in the log. *)
Lemma sync_run_skips
  (st : State) (i : nat) (self ref : InputFile) (lvl : LogLevel) (m : LogMsg) :
  input_files st !! i = Some self ->
  0 <= input_sync_ref self < nb_input_files st ->
  input_sync_ref self <> Z.of_nat i ->
  input_files st !! Z.to_nat (input_sync_ref self) = Some ref ->
  (copy_ts <> 0 -> start_at_zero <> 0) ->
  (forall j f, (j < i)%nat -> input_files st !! j = Some f ->
               -1 <= input_sync_ref f < nb_input_files st) ->
  (forall st_i, sync_tail i st_i self ref = Continue (av_log st_i lvl m)) ->
  let final := snd (apply_sync_offsets st) in
  input_files final !! i = Some self /\
  (lvl, m) ∈ log final /\
  exists st_i, sync_loop 0 i st = Continue st_i /\
               sync_body i st_i = Continue (av_log st_i lvl m).
Proof.
  intros Hi Hr Hne Href Hflags Hbefore Htail.
  destruct (sync_run_iteration i st self ref)
    as (st_i & Hpre & Hb & Hfin & Hlog & Hi'); try done; [lia | |].
  { intros j f Hj Hf. apply sync_fatal_false; [|by apply flags_allow_sync].
    destruct (decide (j = i)) as [->|]; [|apply (Hbefore j f); [lia | done]].
    rewrite Hi in Hf. injection Hf as <-. lia. }
  cbv zeta in *. rewrite Htail in Hb, Hfin, Hlog. simpl in Hfin, Hlog.
  split; [by rewrite Hfin|]. split; [|by exists st_i].
  eapply elem_of_prefix; [|exact Hlog].
  apply elem_of_app. right. by apply list_elem_of_singleton.
Qed.

(** ** Properties of pass 2 *)

(** C1 (as amended): for an input [i] with a sync reference [r] that is in
    range, is not [i], refers to an input that is not itself synced to
    another one and has comparable start times, and when the loop reaches
    [i] and passes its tests (no earlier input has an out-of-range
    reference, and [copy_ts] is not set without [start_at_zero]), pass 2
    adds to the [ts_offset] of [i] exactly
    [(self_start - ref_start) + (copy_ts ? 0 : 1) * (self_seek_start -
    ref_seek_start) + ref->input_ts_offset], in 64-bit arithmetic: the last
    term is the user-supplied [input_ts_offset] of [r]. *)
Theorem sync_adds_adjustment
  (st : State) (i : nat) (self ref : InputFile) (self_start ref_start : Z) :
  input_files st !! i = Some self ->
  0 <= input_sync_ref self < nb_input_files st ->
  input_sync_ref self <> Z.of_nat i ->
  input_files st !! Z.to_nat (input_sync_ref self) = Some ref ->
  input_sync_ref ref = -1 \/ input_sync_ref ref = input_sync_ref self ->
  pick_start_times self ref = Some (self_start, ref_start) ->
  (copy_ts <> 0 -> start_at_zero <> 0) ->
  (forall j f, (j < i)%nat -> input_files st !! j = Some f ->
               -1 <= input_sync_ref f < nb_input_files st) ->
  exists self',
    input_files (snd (apply_sync_offsets st)) !! i = Some self' /\
    let adjustment :=
      (self_start - ref_start)
      + (if c_true copy_ts then 0 else 1) * (seek_start self - seek_start ref)
      + input_ts_offset ref in
    ts_offset self' = wrap64 (ts_offset self + adjustment).
Proof.
  intros Hi Hr Hne Href Hc Hp Hflags Hbefore.
  destruct (sync_run_adjusts st i self ref self_start ref_start) as [Hfin _];
    try done.
  eexists. split; [exact Hfin|]. simpl. apply add64_sync_adjustment.
Qed.

Lemma pick_start_times_spec (self ref : InputFile) :
  let rt_s := start_time_realtime (ctx self) in
  let rt_r := start_time_realtime (ctx ref) in
  let eff_s := start_time_effective self in
  let eff_r := start_time_effective ref in
  (rt_s <> AV_NOPTS_VALUE /\ rt_r <> AV_NOPTS_VALUE ->
   pick_start_times self ref = Some (rt_s, rt_r)) /\
  (~ (rt_s <> AV_NOPTS_VALUE /\ rt_r <> AV_NOPTS_VALUE) ->
   eff_s <> AV_NOPTS_VALUE /\ eff_r <> AV_NOPTS_VALUE ->
   pick_start_times self ref = Some (eff_s, eff_r)) /\
  (~ (rt_s <> AV_NOPTS_VALUE /\ rt_r <> AV_NOPTS_VALUE) ->
   ~ (eff_s <> AV_NOPTS_VALUE /\ eff_r <> AV_NOPTS_VALUE) ->
   pick_start_times self ref = None).
Proof.
  cbv zeta. unfold pick_start_times.
  destruct (Z.eqb_spec (start_time_realtime (ctx self)) AV_NOPTS_VALUE),
           (Z.eqb_spec (start_time_realtime (ctx ref)) AV_NOPTS_VALUE),
           (Z.eqb_spec (start_time_effective self) AV_NOPTS_VALUE),
           (Z.eqb_spec (start_time_effective ref) AV_NOPTS_VALUE);
    simpl; repeat split; intros; try done;
    match goal with
    | H : ~ (_ /\ _) |- _ => by destruct H
    | H : _ /\ _ |- _ => by destruct H
    end.
Qed.

(** C9: for a synchronizing pair [i], [r] (reference in range, not [i], its
    target not synced to another input, the loop reaching [i] and passing
    its tests), the start times used in the adjustment are the
    [start_time_realtime] values when both are known; otherwise the
    [start_time_effective] values when both are known; and when neither
    pair is fully known the iteration for [i] changes nothing, logs the
    informational message and goes on to the next input. *)
Theorem sync_start_times_preference
  (st : State) (i : nat) (self ref : InputFile) :
  input_files st !! i = Some self ->
  0 <= input_sync_ref self < nb_input_files st ->
  input_sync_ref self <> Z.of_nat i ->
  input_files st !! Z.to_nat (input_sync_ref self) = Some ref ->
  input_sync_ref ref = -1 \/ input_sync_ref ref = input_sync_ref self ->
  (copy_ts <> 0 -> start_at_zero <> 0) ->
  (forall j f, (j < i)%nat -> input_files st !! j = Some f ->
               -1 <= input_sync_ref f < nb_input_files st) ->
  let r := input_sync_ref self in
  let rt_s := start_time_realtime (ctx self) in
  let rt_r := start_time_realtime (ctx ref) in
  let eff_s := start_time_effective self in
  let eff_r := start_time_effective ref in
  let realtime_known := rt_s <> AV_NOPTS_VALUE /\ rt_r <> AV_NOPTS_VALUE in
  let effective_known := eff_s <> AV_NOPTS_VALUE /\ eff_r <> AV_NOPTS_VALUE in
  let final := snd (apply_sync_offsets st) in
  let adjusted_with (self_start ref_start : Z) :=
    let adjustment := sync_adjustment self ref self_start ref_start in
    input_files final !! i =
      Some (set_ts_offset self (add64 (ts_offset self) adjustment)) /\
    adjustment =
      add64 (add64 (sub64 self_start ref_start)
                   (mul64 (c_not copy_ts)
                          (sub64 (seek_start self) (seek_start ref))))
            (input_ts_offset ref) /\
    (AV_LOG_INFO, MsgAdjusted (Z.of_nat i) adjustment r) ∈ log final in
  (realtime_known -> adjusted_with rt_s rt_r) /\
  (~ realtime_known -> effective_known -> adjusted_with eff_s eff_r) /\
  (~ realtime_known -> ~ effective_known ->
   input_files final !! i = Some self /\
   (AV_LOG_INFO, MsgUnable (Z.of_nat i) r) ∈ log final /\
   exists st_i st', sync_loop 0 i st = Continue st_i /\
                    sync_body i st_i = Continue st').
Proof.
  intros Hi Hr Hne Href Hc Hflags Hbefore. cbv zeta.
  destruct (pick_start_times_spec self ref) as (Hrt & Heff & Hnone).
  cbv zeta in Hrt, Heff, Hnone. split; [|split].
  - intros Hk.
    destruct (sync_run_adjusts st i self ref _ _ Hi Hr Hne Href Hc Hflags
                               Hbefore (Hrt Hk)) as [Hfin Hlog].
    done.
  - intros Hnk Hk.
    destruct (sync_run_adjusts st i self ref _ _ Hi Hr Hne Href Hc Hflags
                               Hbefore (Heff Hnk Hk)) as [Hfin Hlog].
    done.
  - intros Hnk Hnk'.
    destruct (sync_run_skips st i self ref AV_LOG_INFO
                (MsgUnable (Z.of_nat i) (input_sync_ref self)))
      as (Hfin & Hlog & st_i & Hpre & Hb); try done.
    { intros st_i. apply sync_tail_unable; [done | by apply Hnone]. }
    split; [done|]. split; [done|]. by exists st_i, (av_log st_i AV_LOG_INFO
      (MsgUnable (Z.of_nat i) (input_sync_ref self))).
Qed.

(** C8: an input [i] that pass 2 skips, because it has no sync reference,
    or refers to itself, or refers to an input that is itself synced to a
    third one, or has no comparable pair of start times, keeps its
    [ts_offset] (the whole input is as before the run); and whenever the
    loop reaches [i], its iteration changes no input and goes on to the next
    index. *)
Theorem sync_skipped_input_unchanged
  (st : State) (i : nat) (self : InputFile) :
  input_files st !! i = Some self ->
  let r := input_sync_ref self in
  (r = -1 \/ r = Z.of_nat i \/
   (0 <= r < nb_input_files st /\
    (copy_ts <> 0 -> start_at_zero <> 0) /\
    exists ref,
      input_files st !! Z.to_nat r = Some ref /\
      ((input_sync_ref ref <> -1 /\ input_sync_ref ref <> r) \/
       pick_start_times self ref = None))) ->
  input_files (snd (apply_sync_offsets st)) !! i = Some self /\
  forall st_i,
    sync_loop 0 i st = Continue st_i ->
    exists st', sync_body i st_i = Continue st' /\
                input_files st' = input_files st_i.
Proof.
  intros Hi r Hskip.
  assert (Hiter : forall st_i,
             sync_loop 0 i st = Continue st_i ->
             exists st', sync_body i st_i = Continue st' /\
                         input_files st' = input_files st_i).
  { intros st_i Hpre.
    destruct (sync_run_at i st st_i self Hi Hpre) as (Hf & Hn & Hi' & _).
    destruct (Z.eq_dec r (-1)) as [E1|N1];
      [exists st_i; split; [apply (sync_body_no_ref i st_i self); auto | done]|].
    destruct (Z.eq_dec r (Z.of_nat i)) as [E2|N2];
      [exists st_i; split; [apply (sync_body_no_ref i st_i self); auto | done]|].
    destruct Hskip as [?|[?|(Hr & Hflags & ref & Href & Hwhy)]]; try done.
    destruct (frames_lookup _ _ _ _ Hf Href) as (ref_i & Href_i & Hframe).
    rewrite (sync_body_past_fatal i st_i self ref_i); try done.
    2:{ rewrite Hn. apply sync_fatal_false; [fold r; lia|].
        by apply flags_allow_sync. }
    rewrite (sync_tail_frame _ _ _ ref_i ref Hframe).
    destruct (Z.eq_dec (input_sync_ref ref) (-1)) as [Ec|Nc].
    - destruct Hwhy as [[? _]|Hnone]; [done|].
      rewrite sync_tail_unable by auto. by eexists.
    - destruct (Z.eq_dec (input_sync_ref ref) r) as [Ec'|Nc'].
      + destruct Hwhy as [[_ ?]|Hnone]; [done|].
        rewrite sync_tail_unable by auto. by eexists.
      + rewrite sync_tail_chained by done. by eexists. }
  split; [|done].
  destruct (sync_loop 0 i st) as [st_i|ret st'] eqn:Hpre.
  - destruct (Hiter st_i eq_refl) as (st' & Hb & Hfiles).
    destruct (sync_run_at i st st_i self Hi Hpre) as (_ & _ & Hi' & Hfin & _).
    rewrite Hfin, Hb. simpl. by rewrite Hfiles.
  - destruct (sync_run_before i st ret st') as [Happ Hl];
      [by eapply lookup_lt_Some | done |].
    rewrite Happ. simpl. by rewrite Hl.
Qed.

(** The run succeeds if no fatal test holds at any input. *)
Lemma apply_sync_offsets_success (st : State) :
  (forall j f, input_files st !! j = Some f ->
               sync_fatal (nb_input_files st) j f = false) ->
  fst (apply_sync_offsets st) = 0 /\
  sync_loop 0 (length (input_files st)) st = Continue (snd (apply_sync_offsets st)).
Proof.
  intros Hnf. destruct (sync_reach (length (input_files st)) st) as [st' Hl].
  { intros j f _. apply Hnf. }
  unfold apply_sync_offsets. by rewrite Hl.
Qed.

(** C10: for two distinct inputs [a] and [b] that refer to each other, all
    references being in range and the flags allowing synchronization, pass
    2 takes the target of each for an input synced to another one: both
    iterations end with the error message, neither input is changed, and
    the function returns 0. *)
Theorem sync_mutual_references_skipped
  (st : State) (a b : nat) (fa fb : InputFile) :
  a <> b ->
  input_files st !! a = Some fa ->
  input_files st !! b = Some fb ->
  input_sync_ref fa = Z.of_nat b ->
  input_sync_ref fb = Z.of_nat a ->
  (forall j f, input_files st !! j = Some f ->
               -1 <= input_sync_ref f < nb_input_files st) ->
  (copy_ts <> 0 -> start_at_zero <> 0) ->
  let result := apply_sync_offsets st in
  fst result = 0 /\
  input_files (snd result) !! a = Some fa /\
  input_files (snd result) !! b = Some fb /\
  (AV_LOG_ERROR, MsgResynced (Z.of_nat a) (Z.of_nat b)) ∈ log (snd result) /\
  (AV_LOG_ERROR, MsgResynced (Z.of_nat b) (Z.of_nat a)) ∈ log (snd result).
Proof.
  intros Hab Ha Hb Hra Hrb Hrange Hflags. cbv zeta.
  assert (Hone : forall x y fx fy,
             x <> y ->
             input_files st !! x = Some fx ->
             input_files st !! y = Some fy ->
             input_sync_ref fx = Z.of_nat y ->
             input_sync_ref fy = Z.of_nat x ->
             input_files (snd (apply_sync_offsets st)) !! x = Some fx /\
             (AV_LOG_ERROR, MsgResynced (Z.of_nat x) (Z.of_nat y))
               ∈ log (snd (apply_sync_offsets st))).
  { intros x y fx fy Hxy Hx Hy Hrx Hry.
    destruct (sync_run_skips st x fx fy AV_LOG_ERROR
                (MsgResynced (Z.of_nat x) (Z.of_nat y)))
      as (Hfin & Hlog & _); try done.
    - pose proof (Hrange x fx Hx). lia.
    - lia.
    - by rewrite Hrx, Nat2Z.id.
    - intros j f _. apply Hrange.
    - intros st_i. rewrite <- Hrx. apply sync_tail_chained; lia. }
  destruct (Hone a b fa fb) as [Hfa Hla]; try done.
  destruct (Hone b a fb fa) as [Hfb Hlb]; try done.
  split; [|done].
  apply apply_sync_offsets_success.
  intros j f Hj. apply sync_fatal_false; [by apply (Hrange j)|].
  by apply flags_allow_sync.
Qed.

(** C3 (as amended): if an input [k] has a sync reference greater than or
    equal to the number of inputs, pass 2 returns [AVERROR(EINVAL)], and
    the input [k] and every input after it are as before the run (inputs
    before [k] may have been adjusted already). *)
Theorem sync_out_of_range_is_fatal
  (st : State) (k : nat) (self : InputFile) :
  input_files st !! k = Some self ->
  input_sync_ref self >= nb_input_files st ->
  fst (apply_sync_offsets st) = AVERROR EINVAL /\
  forall j, (k <= j)%nat ->
            input_files (snd (apply_sync_offsets st)) !! j =
            input_files st !! j.
Proof.
  intros Hk Hr. pose proof (lookup_lt_Some _ _ _ Hk) as Hlt.
  assert (Hfat : sync_fatal (nb_input_files st) k self = true).
  { unfold sync_fatal, nb_input_files in *. cmp_cases; reflexivity. }
  destruct (sync_loop_fatal_at (length (input_files st)) 0 k st self)
    as (st' & Hl & Hsame); [lia | done | done |].
  unfold apply_sync_offsets. rewrite Hl. done.
Qed.

(** C6: pass 2 returns [AVERROR(EINVAL)] if and only if some input has an
    out-of-range sync reference (at least the number of inputs, or below
    -1), or [copy_ts] is set without [start_at_zero] while some input has a
    sync reference that is neither -1 nor its own index.  In that case the
    function returns at the first such input [k]: the state it leaves is the
    state after the iterations before [k] with the fatal message added to
    the log, and the inputs from [k] on are as before.  In every other
    configuration it returns 0 after the loop has run over all inputs. *)
Theorem apply_sync_offsets_error_iff (st : State) :
  let n := nb_input_files st in
  let result := apply_sync_offsets st in
  let out_of_range :=
    exists i self, input_files st !! i = Some self /\
                   (input_sync_ref self >= n \/ input_sync_ref self < -1) in
  let active_reference :=
    exists i self, input_files st !! i = Some self /\
                   input_sync_ref self <> -1 /\
                   input_sync_ref self <> Z.of_nat i in
  let fatal :=
    out_of_range \/ (copy_ts <> 0 /\ start_at_zero = 0 /\ active_reference) in
  (fst result = AVERROR EINVAL <-> fatal) /\
  (fatal ->
   exists k st_k m,
     (k < length (input_files st))%nat /\
     sync_loop 0 k st = Continue st_k /\
     snd result = av_log st_k AV_LOG_FATAL m /\
     forall j, (k <= j)%nat ->
               input_files (snd result) !! j = input_files st !! j) /\
  (~ fatal ->
   fst result = 0 /\
   sync_loop 0 (length (input_files st)) st = Continue (snd result)).
Proof.
  cbv zeta.
  set (fatal := (exists i self, input_files st !! i = Some self /\
                   (input_sync_ref self >= nb_input_files st \/
                    input_sync_ref self < -1)) \/
                (copy_ts <> 0 /\ start_at_zero = 0 /\
                 exists i self, input_files st !! i = Some self /\
                   input_sync_ref self <> -1 /\
                   input_sync_ref self <> Z.of_nat i)).
  (* a fatal test holds at some input exactly in a fatal configuration *)
  assert (Hchar : fatal <->
                  exists k self, input_files st !! k = Some self /\
                    sync_fatal (nb_input_files st) k self = true).
  { unfold fatal. split.
    - intros [(i & self & Hi & Hr) | (Hc & Hz & i & self & Hi & H1 & H2)];
        exists i, self; (split; [done|]).
      + pose proof (lookup_lt_Some _ _ _ Hi) as Hlt.
        unfold sync_fatal, nb_input_files in *.
        destruct Hr; cmp_cases; reflexivity.
      + unfold sync_fatal. subst start_at_zero.
        apply c_true_true in Hc. rewrite Hc. simpl.
        rewrite orb_true_r. cmp_cases; reflexivity.
    - intros (k & self & Hk & Hfat). unfold sync_fatal in Hfat.
      apply andb_prop in Hfat as [Hne Hfat].
      apply negb_true_iff, orb_false_elim in Hne as [Hn1 Hn2].
      apply Z.eqb_neq in Hn1, Hn2.
      apply orb_prop in Hfat as [Hfat | Hfat].
      + left. exists k, self. split; [done|].
        apply orb_prop in Hfat as [Hge | Hlt].
        * left. destruct (Z.geb_spec (input_sync_ref self) (nb_input_files st));
            [lia | done].
        * right. by apply Z.ltb_lt.
      + right. apply andb_prop in Hfat as [Hc Hz].
        apply c_true_true in Hc. apply negb_true_iff, c_true_false in Hz.
        split; [done|]. split; [done|]. by exists k, self. }
  (* the function returns the error exactly when the loop returns *)
  assert (Hret : fst (apply_sync_offsets st) = AVERROR EINVAL ->
                 exists ret st',
                   sync_loop 0 (length (input_files st)) st = Return ret st').
  { unfold apply_sync_offsets.
    destruct (sync_loop 0 (length (input_files st)) st) as [st'|ret st'];
      simpl; [done | by eexists _, _]. }
  assert (Hiff : fst (apply_sync_offsets st) = AVERROR EINVAL <-> fatal).
  { rewrite Hchar. split.
    - intros (ret & st' & Hl)%Hret.
      apply sync_loop_Return_inv in Hl as (k & _ & self & _ & _ & Hk & Hfat & _).
      by exists k, self.
    - intros (k & self & Hk & Hfat).
      pose proof (lookup_lt_Some _ _ _ Hk) as Hlt.
      destruct (sync_loop_fatal_at (length (input_files st)) 0 k st self)
        as (st' & Hl & _); [lia | done | done |].
      unfold apply_sync_offsets. by rewrite Hl. }
  split; [done|]. split.
  - intros (ret & st' & Hl)%Hiff%Hret.
    pose proof Hl as Hinv.
    apply sync_loop_Return_inv in Hinv
      as (k & st_k & self & Hk & Hpre & Hself & Hfat & -> & ->).
    rewrite Nat.sub_0_r in Hpre.
    exists k, st_k, (sync_fatal_msg (nb_input_files st) k self).
    split; [lia|]. split; [done|].
    unfold apply_sync_offsets. rewrite Hl. simpl. split; [done|].
    intros j Hj.
    pose proof (sync_loop_frame k 0 st) as (_ & Hsame & _).
    rewrite Hpre in Hsame. apply Hsame. lia.
  - intros Hnot. apply apply_sync_offsets_success.
    intros j f Hj. destruct (sync_fatal (nb_input_files st) j f) eqn:Hfat;
      [|done].
    destruct Hnot. apply Hchar. by exists j, f.
Qed.

(** ** Further properties of the two passes *)

Lemma correct_body_length (i : nat) (st : State) :
  length (input_files (correct_body i st)) = length (input_files st).
Proof.
  unfold correct_body. destruct (input_files st !! i) as [f|]; [|done].
  destruct (correct_file i f). simpl. apply length_insert.
Qed.

Lemma correct_loop_length (count i : nat) (st : State) :
  length (input_files (correct_loop i count st)) = length (input_files st).
Proof.
  revert i st. induction count as [|count IH]; intros i st; simpl; [done|].
  by rewrite IH, correct_body_length.
Qed.

(** X1: pass 1 leaves an input alone, but for setting
    [start_time_effective] to the format start time, in three cases: the
    format start time is unknown, the format has no [AVFMT_TS_DISCONT], or
    the minimum over the streams is the format start time (zero delta). *)
Theorem correct_leaves_input_alone (st : State) (i : nat) (ifile : InputFile) :
  input_files st !! i = Some ifile ->
  ctx_start_time (ctx ifile) = AV_NOPTS_VALUE \/
  Z.land (iformat_flags (ctx ifile)) AVFMT_TS_DISCONT = 0 \/
  streams_new_start_time (streams (ctx ifile)) = ctx_start_time (ctx ifile) ->
  input_files (correct_input_start_times st) !! i =
  Some (set_start_time_effective ifile (ctx_start_time (ctx ifile))).
Proof.
  intros Hi Hcase. rewrite correct_input_start_times_lookup, Hi. simpl.
  f_equal. unfold correct_file.
  destruct Hcase as [Hn | [Hf | Hz]].
  - rewrite Hn. by rewrite Z.eqb_refl.
  - rewrite Hf. simpl. by rewrite orb_true_r.
  - rewrite Hz. unfold sub64. rewrite Z.sub_diag. simpl.
    by destruct (_ || _).
Qed.

(** X2: pass 1 keeps the number of inputs and, in every input, all fields
    but [start_time_effective] and [ts_offset]. *)
Theorem correct_preserves_inputs (st : State) :
  length (input_files (correct_input_start_times st)) =
    length (input_files st) /\
  forall i f',
    input_files (correct_input_start_times st) !! i = Some f' ->
    exists f,
      input_files st !! i = Some f /\
      ctx f' = ctx f /\ start_time f' = start_time f /\
      input_ts_offset f' = input_ts_offset f /\
      input_sync_ref f' = input_sync_ref f.
Proof.
  split; [apply correct_loop_length|].
  intros i f'. rewrite correct_input_start_times_lookup.
  destruct (input_files st !! i) as [f|]; simpl; [|done].
  intros [= <-]. exists f. split; [done|]. apply correct_file_frame.
Qed.

Lemma apply_sync_offsets_frames (st : State) :
  frame <$> input_files (snd (apply_sync_offsets st)) =
  frame <$> input_files st /\
  log st `prefix_of` log (snd (apply_sync_offsets st)).
Proof.
  pose proof (sync_loop_frame (length (input_files st)) 0 st)
    as (Hf & _ & Hp & _).
  unfold apply_sync_offsets. cbv zeta in Hf, Hp.
  by destruct (sync_loop 0 (length (input_files st)) st).
Qed.

(** X3: pass 2 keeps the number of inputs and writes no field but
    [ts_offset]; it only adds entries at the end of the log. *)
Theorem apply_sync_offsets_writes_ts_offset_only (st : State) :
  let final := snd (apply_sync_offsets st) in
  length (input_files final) = length (input_files st) /\
  (forall i f', input_files final !! i = Some f' ->
                exists f, input_files st !! i = Some f /\
                          f' = set_ts_offset f (ts_offset f')) /\
  log st `prefix_of` log final.
Proof.
  cbv zeta. destruct (apply_sync_offsets_frames st) as [Hf Hp].
  split; [by apply frames_length|]. split; [|done].
  intros i f' Hi.
  assert (Hlen : length (input_files (snd (apply_sync_offsets st))) =
                 length (input_files st)) by (by apply frames_length).
  destruct (lookup_lt_is_Some_2 (input_files st) i) as [f Hf0].
  { rewrite <- Hlen. by eapply lookup_lt_Some. }
  exists f. split; [done|].
  destruct (frames_lookup _ _ _ _ Hf Hf0) as (f'' & Hi' & Hfr).
  rewrite Hi in Hi'. injection Hi' as <-.
  destruct (frame_fields _ _ Hfr) as (? & ? & ? & ? & ?).
  destruct f', f. simpl in *. unfold set_ts_offset. simpl. congruence.
Qed.

(** X4: if no input has a sync reference other than -1 or its own index,
    pass 2 returns 0 and leaves the state as it is, log included. *)
Theorem apply_sync_offsets_without_references (st : State) :
  (forall i f, input_files st !! i = Some f ->
               input_sync_ref f = -1 \/ input_sync_ref f = Z.of_nat i) ->
  apply_sync_offsets st = (0, st).
Proof.
  intros Hno. unfold apply_sync_offsets.
  assert (Hloop : forall count i, sync_loop i count st = Continue st).
  { induction count as [|count IH]; intros i; simpl; [done|].
    destruct (input_files st !! i) as [f|] eqn:Hi.
    - rewrite (sync_body_no_ref i st f Hi (Hno i f Hi)). apply IH.
    - unfold sync_body. rewrite Hi. apply IH. }
  by rewrite Hloop.
Qed.

(** X5: with [copy_ts] set and [start_at_zero] not set, pass 2 changes no
    input, whatever it returns: the first input with a sync reference stops
    the loop before any adjustment. *)
Theorem apply_sync_offsets_copy_ts_changes_nothing (st : State) :
  copy_ts <> 0 -> start_at_zero = 0 ->
  input_files (snd (apply_sync_offsets st)) = input_files st.
Proof.
  intros Hc Hz.
  assert (Hflags : c_true copy_ts && negb (c_true start_at_zero) = true).
  { apply c_true_true in Hc. rewrite Hc. subst start_at_zero. reflexivity. }
  assert (Hbody : forall i st0,
             input_files (step_state (sync_body i st0)) = input_files st0 /\
             forall st1, sync_body i st0 = Continue st1 -> st1 = st0).
  { intros i st0. unfold sync_body.
    destruct (input_files st0 !! i) as [self|]; [|by split; [|intros ? [=]]].
    destruct ((input_sync_ref self =? -1)
              || (input_sync_ref self =? Z.of_nat i));
      [by split; [|intros ? [=]]|].
    destruct ((input_sync_ref self >=? nb_input_files st0)
              || (input_sync_ref self <? -1)); [by split|].
    rewrite Hflags. by split. }
  assert (Hloop : forall count i,
             input_files (step_state (sync_loop i count st)) = input_files st).
  { induction count as [|count IH]; intros i; simpl; [done|].
    destruct (Hbody i st) as [Hfiles Hsame].
    destruct (sync_body i st) as [st1|ret st1] eqn:Hb; simpl in *; [|done].
    rewrite (Hsame st1 eq_refl). apply IH. }
  unfold apply_sync_offsets.
  specialize (Hloop (length (input_files st)) 0%nat).
  by destruct (sync_loop 0 (length (input_files st)) st).
Qed.

(** The value pass 2 returns: the error if a fatal test holds at some
    input, 0 if none does. *)
Lemma apply_sync_offsets_ret_cases (st : State) :
  (fst (apply_sync_offsets st) = AVERROR EINVAL /\
   exists k self, input_files st !! k = Some self /\
                  sync_fatal (nb_input_files st) k self = true) \/
  (fst (apply_sync_offsets st) = 0 /\
   forall k self, input_files st !! k = Some self ->
                  sync_fatal (nb_input_files st) k self = false).
Proof.
  unfold apply_sync_offsets.
  destruct (sync_loop 0 (length (input_files st)) st) as [st'|ret st'] eqn:Hl;
    simpl.
  - right. split; [done|]. intros k self Hk.
    destruct (sync_fatal (nb_input_files st) k self) eqn:Hfat; [|done].
    pose proof (lookup_lt_Some _ _ _ Hk) as Hlt.
    destruct (sync_loop_fatal_at (length (input_files st)) 0 k st self)
      as (st'' & Hl' & _); [lia | done | done |]. congruence.
  - left.
    apply sync_loop_Return_inv in Hl
      as (k & _ & self & _ & _ & Hk & Hfat & -> & _).
    split; [done|]. by exists k, self.
Qed.

(** X6: in the sequence [correct_input_start_times(); ret =
    apply_sync_offsets();] of [ffmpeg_parse_options], pass 1 has no
    influence on the value pass 2 returns. *)
Theorem apply_sync_offsets_ret_after_correct (st : State) :
  fst (apply_sync_offsets (correct_input_start_times st)) =
  fst (apply_sync_offsets st).
Proof.
  destruct (correct_preserves_inputs st) as [Hlen Hfields].
  assert (Hn : nb_input_files (correct_input_start_times st) =
               nb_input_files st)
    by (unfold nb_input_files; by rewrite Hlen).
  assert (Hfat : forall k f f',
             input_files st !! k = Some f ->
             input_files (correct_input_start_times st) !! k = Some f' ->
             sync_fatal (nb_input_files (correct_input_start_times st)) k f' =
             sync_fatal (nb_input_files st) k f).
  { intros k f f' Hk Hk'.
    destruct (Hfields k f' Hk') as (f0 & Hk0 & _ & _ & _ & Hr).
    rewrite Hk in Hk0. injection Hk0 as <-.
    rewrite Hn. unfold sync_fatal. by rewrite Hr. }
  destruct (apply_sync_offsets_ret_cases st)
    as [[Hret (k & f & Hk & Hf)] | [Hret Hnone]];
    destruct (apply_sync_offsets_ret_cases (correct_input_start_times st))
      as [[Hret' (k' & f' & Hk' & Hf')] | [Hret' Hnone']];
    try congruence.
  - destruct (lookup_lt_is_Some_2
                (input_files (correct_input_start_times st)) k) as [f' Hk'].
    { rewrite Hlen. by eapply lookup_lt_Some. }
    pose proof (Hnone' k f' Hk') as Hf'.
    rewrite (Hfat k f f' Hk Hk') in Hf'. congruence.
  - destruct (Hfields k' f' Hk') as (f & Hk & _).
    rewrite (Hfat k' f f' Hk Hk') in Hf'.
    rewrite (Hnone k' f Hk) in Hf'. done.
Qed.

(** X7: pass 2 is not idempotent.  Under the conditions in which a run
    adds the adjustment to the [ts_offset] of the input [i], a second run
    adds it again: the adjustment does not depend on any [ts_offset]. *)
Theorem apply_sync_offsets_twice
  (st : State) (i : nat) (self ref : InputFile) (self_start ref_start : Z) :
  input_files st !! i = Some self ->
  0 <= input_sync_ref self < nb_input_files st ->
  input_sync_ref self <> Z.of_nat i ->
  input_files st !! Z.to_nat (input_sync_ref self) = Some ref ->
  input_sync_ref ref = -1 \/ input_sync_ref ref = input_sync_ref self ->
  pick_start_times self ref = Some (self_start, ref_start) ->
  (copy_ts <> 0 -> start_at_zero <> 0) ->
  (forall j f, (j < i)%nat -> input_files st !! j = Some f ->
               -1 <= input_sync_ref f < nb_input_files st) ->
  let adjustment := sync_adjustment self ref self_start ref_start in
  let once := snd (apply_sync_offsets st) in
  let twice := snd (apply_sync_offsets once) in
  ts_offset <$> input_files once !! i =
    Some (add64 (ts_offset self) adjustment) /\
  ts_offset <$> input_files twice !! i =
    Some (add64 (add64 (ts_offset self) adjustment) adjustment).
Proof.
  intros Hi Hr Hne Href Hc Hp Hflags Hbefore. cbv zeta.
  destruct (sync_run_adjusts st i self ref self_start ref_start) as [Hfin _];
    try done.
  split; [by rewrite Hfin|].
  destruct (apply_sync_offsets_frames st) as [Hf _].
  set (once := snd (apply_sync_offsets st)) in *.
  assert (Hn : nb_input_files once = nb_input_files st)
    by (unfold nb_input_files; by rewrite (frames_length _ _ Hf)).
  destruct (frames_lookup _ _ _ _ Hf Href) as (ref1 & Href1 & Hfr).
  destruct (frame_fields _ _ Hfr) as (_ & _ & _ & _ & Hrr).
  set (self1 := set_ts_offset self
                  (add64 (ts_offset self)
                         (sync_adjustment self ref self_start ref_start))) in *.
  destruct (sync_run_adjusts once i self1 ref1 self_start ref_start)
    as [Hfin2 _]; try done.
  - by rewrite Hn.
  - by rewrite Hrr.
  - intros j f1 Hj Hf1. rewrite Hn.
    assert (Hlen : length (input_files once) = length (input_files st))
      by (by apply frames_length).
    destruct (lookup_lt_is_Some_2 (input_files st) j) as [f Hf0].
    { rewrite <- Hlen. by eapply lookup_lt_Some. }
    destruct (frames_lookup _ _ _ _ Hf Hf0) as (f1' & Hf1' & Hfr').
    rewrite Hf1 in Hf1'. injection Hf1' as <-.
    destruct (frame_fields _ _ Hfr') as (_ & _ & _ & _ & ->).
    by apply (Hbefore j).
  - by rewrite (pick_start_times_frame self1 ref1 ref Hfr).
  - rewrite Hfin2. simpl. f_equal. f_equal.
    by rewrite (sync_adjustment_frame self1 ref1 ref _ _ Hfr).
Qed.

End Passes.

(** ** The passes on the sample inputs *)

(** Closed comparisons of integers, by evaluation. *)
Ltac by_eval :=
  vm_compute; repeat split; first [reflexivity | discriminate].

(** C2 (the code on the failing input): the only stream of the input is
    discarded, so no stream counts, yet pass 1 changes the input: the start
    value [INT64_MAX] of the minimum becomes its [start_time_effective] and
    [ts_offset] is overwritten.  This holds whatever [av_rescale_q] is. *)
Theorem correct_changes_input_without_counted_stream
  (rescale : Z -> AVRational -> AVRational -> Z) :
  let ifile := discont_input 0 [sample_stream AVDISCARD_ALL 1000] in
  input_files st_all_discarded = [ifile] /\
  c_true (Z.land (iformat_flags (ctx ifile)) AVFMT_TS_DISCONT) = true /\
  ctx_start_time (ctx ifile) <> AV_NOPTS_VALUE /\
  (forall s, s ∈ streams (ctx ifile) -> discard s = AVDISCARD_ALL) /\
  input_files (correct_input_start_times 0 0 rescale st_all_discarded) =
    [set_ts_offset (set_start_time_effective ifile INT64_MAX)
                   (3 - INT64_MAX)] /\
  INT64_MAX <> ctx_start_time (ctx ifile) /\
  3 - INT64_MAX <> ts_offset ifile.
Proof.
  cbv zeta. split; [reflexivity|]. split; [reflexivity|].
  split; [discriminate|]. split.
  - intros s Hs. simpl in Hs. apply list_elem_of_singleton in Hs. by subst.
  - split; [reflexivity|]. split; discriminate.
Qed.

(** C1 (counterexample to the claim as stated): in [st_sync_pair] input 1 is
    synced to input 0, whose accumulated [ts_offset] is 5 and whose
    [input_ts_offset] is 0; pass 2 adds 200000 to the [ts_offset] of input
    1, not 200005. *)
Lemma sync_adjustment_not_from_ts_offset :
  ~ (forall (copy_ts start_at_zero : Z) (st : State) (i : nat)
            (self ref : InputFile) (self_start ref_start : Z),
        input_files st !! i = Some self ->
        0 <= input_sync_ref self < nb_input_files st ->
        input_sync_ref self <> Z.of_nat i ->
        input_files st !! Z.to_nat (input_sync_ref self) = Some ref ->
        input_sync_ref ref = -1 \/ input_sync_ref ref = input_sync_ref self ->
        pick_start_times self ref = Some (self_start, ref_start) ->
        (copy_ts <> 0 -> start_at_zero <> 0) ->
        (forall j f, (j < i)%nat -> input_files st !! j = Some f ->
                     -1 <= input_sync_ref f < nb_input_files st) ->
        exists self',
          input_files (snd (apply_sync_offsets copy_ts start_at_zero st)) !! i
            = Some self' /\
          let adjustment :=
            (self_start - ref_start)
            + (if c_true copy_ts then 0 else 1)
              * (seek_start self - seek_start ref)
            + ts_offset ref in
          ts_offset self' = wrap64 (ts_offset self + adjustment)).
Proof.
  intros H.
  destruct (H 0 0 st_sync_pair 1%nat
              (sample_input 1200000 10 0 0) (sample_input 1000000 5 0 (-1))
              1200000 1000000) as (self' & Hl & Hts);
    try reflexivity.
  - by_eval.
  - discriminate.
  - by left.
  - done.
  - intros j f Hj Hf. destruct j as [|j]; [|lia].
    injection Hf as <-. by_eval.
  - vm_compute in Hl. injection Hl as <-. vm_compute in Hts. discriminate.
Qed.

(** C3 (counterexample to the claim as stated): in [st_late_bad_ref] input 2
    refers to the non-existent input 7; pass 2 returns the error, but it has
    adjusted the [ts_offset] of input 0 from 10 to 200010 before. *)
Lemma sync_fatal_after_adjustment :
  ~ (forall (copy_ts start_at_zero : Z) (st : State) (k : nat)
            (self : InputFile),
        input_files st !! k = Some self ->
        input_sync_ref self >= nb_input_files st ->
        fst (apply_sync_offsets copy_ts start_at_zero st) = AVERROR EINVAL /\
        forall j f,
          input_files st !! j = Some f ->
          ts_offset <$>
            input_files (snd (apply_sync_offsets copy_ts start_at_zero st)) !! j
          = Some (ts_offset f)).
Proof.
  intros H.
  destruct (H 0 0 st_late_bad_ref 2%nat (sample_input 0 0 0 7)) as [_ Hsame];
    [reflexivity | by_eval |].
  specialize (Hsame 0%nat (sample_input 1200000 10 0 1) eq_refl).
  vm_compute in Hsame. discriminate.
Qed.

(** ** The properties at sample inputs *)

Lemma sync_adds_adjustment_witness :
  exists self',
    input_files (snd (apply_sync_offsets 0 0 st_sync_pair)) !! 1%nat
      = Some self' /\
    ts_offset self' = wrap64 (10 + ((1200000 - 1000000) + 1 * (0 - 0) + 0)).
Proof.
  apply (sync_adds_adjustment 0 0 st_sync_pair 1%nat
           (sample_input 1200000 10 0 0) (sample_input 1000000 5 0 (-1))
           1200000 1000000); try reflexivity.
  - by_eval.
  - discriminate.
  - left. reflexivity.
  - intros Hc. exact Hc.
  - intros j f Hj Hf. destruct j as [|j]; [|lia].
    injection Hf as <-. by_eval.
Defined.

Lemma sync_out_of_range_is_fatal_witness :
  fst (apply_sync_offsets 0 0 st_late_bad_ref) = AVERROR EINVAL /\
  forall j, (2 <= j)%nat ->
            input_files (snd (apply_sync_offsets 0 0 st_late_bad_ref)) !! j =
            input_files st_late_bad_ref !! j.
Proof.
  apply (sync_out_of_range_is_fatal 0 0 st_late_bad_ref 2%nat
           (sample_input 0 0 0 7)).
  - reflexivity.
  - by_eval.
Defined.

Lemma correct_sets_effective_to_minimum_witness :
  exists ifile',
    input_files (correct_input_start_times 0 0 rescale_q st_three_streams)
      !! 0%nat = Some ifile' /\
    (exists s, s ∈ three_streams /\
               discard s <> AVDISCARD_ALL /\
               st_start_time s <> AV_NOPTS_VALUE /\
               start_time_effective ifile' = stream_start_us rescale_q s) /\
    (forall s, s ∈ three_streams ->
               discard s <> AVDISCARD_ALL ->
               st_start_time s <> AV_NOPTS_VALUE ->
               start_time_effective ifile' <= stream_start_us rescale_q s).
Proof.
  apply (correct_sets_effective_to_minimum 0 0 rescale_q st_three_streams
           0%nat (discont_input 3000 three_streams)).
  - reflexivity.
  - reflexivity.
  - by_eval.
  - by_eval.
  - repeat constructor; by_eval.
  - exists (sample_stream AVDISCARD_NONE 2000). split.
    + apply elem_of_cons. right. apply elem_of_cons. by left.
    + by_eval.
Defined.

(** The sample of the specification: with counted streams starting at 5000,
    2000 and 8000, the effective start time is 2000. *)
Example correct_three_streams :
  start_time_effective <$>
    input_files (correct_input_start_times 0 0 rescale_q st_three_streams)
      !! 0%nat = Some 2000.
Proof. reflexivity. Qed.

Lemma correct_ts_offset_formula_witness :
  exists ifile',
    input_files (correct_input_start_times 0 0 rescale_q st_three_streams)
      !! 0%nat = Some ifile' /\
    start_time_effective ifile' = streams_new_start_time rescale_q three_streams /\
    ts_offset ifile' =
      add64 (neg64 (Z.max (add64 3000 0) (start_time_effective ifile'))) 3.
Proof.
  apply (correct_ts_offset_formula 0 0 rescale_q st_three_streams
           0%nat (discont_input 3000 three_streams)).
  - reflexivity.
  - reflexivity.
  - by_eval.
  - by_eval.
Defined.

Lemma sync_skipped_input_unchanged_witness :
  input_files (snd (apply_sync_offsets 0 0 st_unknown_start)) !! 0%nat =
    Some (sample_input 1000000 5 0 1) /\
  forall st_i,
    sync_loop 0 0 0 0 st_unknown_start = Continue st_i ->
    exists st', sync_body 0 0 0 st_i = Continue st' /\
                input_files st' = input_files st_i.
Proof.
  apply (sync_skipped_input_unchanged 0 0 st_unknown_start 0%nat
           (sample_input 1000000 5 0 1)).
  - reflexivity.
  - right. right. split; [by_eval|]. split; [intros Hc; exact Hc|].
    exists (sample_input AV_NOPTS_VALUE 10 0 (-1)).
    split; [reflexivity|]. right. reflexivity.
Defined.

Lemma sync_start_times_preference_witness :
  input_files (snd (apply_sync_offsets 0 0 st_sync_pair)) !! 1%nat =
    Some (set_ts_offset (sample_input 1200000 10 0 0) 200010).
Proof.
  refine (proj1 (proj1 (proj2 (sync_start_times_preference 0 0 st_sync_pair
           1%nat (sample_input 1200000 10 0 0) (sample_input 1000000 5 0 (-1))
           _ _ _ _ _ _ _)) _ _)).
  - reflexivity.
  - by_eval.
  - by_eval.
  - reflexivity.
  - left. reflexivity.
  - intros Hc. exact Hc.
  - intros j f Hj Hf. destruct j as [|j]; [|lia].
    injection Hf as <-. by_eval.
  - intros [Hs _]. by destruct Hs.
  - by_eval.
Defined.

Lemma sync_mutual_references_skipped_witness :
  let result := apply_sync_offsets 0 0 st_mutual in
  fst result = 0 /\
  input_files (snd result) !! 0%nat = Some (sample_input 1000000 5 0 1) /\
  input_files (snd result) !! 1%nat = Some (sample_input 1200000 10 0 0) /\
  (AV_LOG_ERROR, MsgResynced 0 1) ∈ log (snd result) /\
  (AV_LOG_ERROR, MsgResynced 1 0) ∈ log (snd result).
Proof.
  apply (sync_mutual_references_skipped 0 0 st_mutual 0%nat 1%nat
           (sample_input 1000000 5 0 1) (sample_input 1200000 10 0 0)).
  - discriminate.
  - reflexivity.
  - reflexivity.
  - reflexivity.
  - reflexivity.
  - intros j f Hf. destruct j as [|[|j]]; [| |discriminate Hf];
      injection Hf as <-; by_eval.
  - intros Hc. exact Hc.
Defined.

(** ** [posix_memalign] *)

(** A positive integer has no bit in common with its predecessor exactly
    when it is a power of two. *)
Lemma land_pred_power_of_two (a : Z) :
  0 < a -> (Z.land a (a - 1) = 0 <-> exists k, 0 <= k /\ a = 2 ^ k).
Proof.
  intros Ha. split.
  - intros Hland.
    pose proof (Z.log2_nonneg a) as Hk.
    pose proof (Z.log2_spec a Ha) as [Hlo Hhi].
    exists (Z.log2 a). split; [done|].
    destruct (Z.eq_dec a (2 ^ Z.log2 a)) as [|Hne]; [done|].
    assert (Hlog : Z.log2 (a - 1) = Z.log2 a).
    { apply Z.log2_unique; [done|]. rewrite Z.pow_succ_r in Hhi by done.
      rewrite <- Z.add_1_r, Z.pow_add_r, Z.pow_1_r by lia. lia. }
    assert (Hbit : Z.testbit (Z.land a (a - 1)) (Z.log2 a) = true).
    { rewrite Z.land_spec, Z.bit_log2 by done.
      rewrite <- Hlog. rewrite Z.bit_log2 by lia. done. }
    rewrite Hland, Z.bits_0 in Hbit. done.
  - intros (k & Hk & ->).
    replace (2 ^ k - 1) with (Z.ones k) by (rewrite Z.ones_equiv; lia).
    rewrite Z.land_ones by done. apply Z.mod_same. lia.
Qed.

(** X8: [posix_memalign] accepts exactly the alignments that are a power of
    two and a multiple of [sizeof(void * )].  For any other alignment,
    zero and the values below [sizeof(void * )] included, it returns
    [EINVAL] and leaves [*memptr] and [errno] as they are; for an accepted
    one it stores the result of [memalign] in [*memptr] and returns 0, or
    [errno] if that result is [NULL]. *)
Theorem posix_memalign_alignment
  (ptr_bytes : Z) (memalign : Z -> Z -> Z -> Z * Z)
  (ms : MemState) (alignment size : Z) :
  0 < ptr_bytes ->
  0 <= alignment < 2 ^ (8 * ptr_bytes) ->
  let accepted :=
    (exists k, 0 <= k /\ alignment = 2 ^ k) /\ alignment mod ptr_bytes = 0 in
  (~ accepted ->
   posix_memalign ptr_bytes memalign ms alignment size = (EINVAL, ms)) /\
  (alignment < ptr_bytes -> ~ accepted) /\
  (accepted ->
   posix_memalign ptr_bytes memalign ms alignment size =
   let p := fst (memalign (errno ms) alignment size) in
   let e := snd (memalign (errno ms) alignment size) in
   (if p =? 0 then e else 0, {| memptr := p; errno := e |})).
Proof.
  intros Hp Ha. cbv zeta.
  assert (Hpow : 0 < alignment ->
                 (Z.land alignment ((alignment - 1) mod 2 ^ (8 * ptr_bytes)) = 0
                  <-> exists k, 0 <= k /\ alignment = 2 ^ k)).
  { intros Hpos. rewrite Z.mod_small by lia.
    by apply land_pred_power_of_two. }
  split; [|split].
  - intros Hnot. unfold posix_memalign.
    destruct (Z.eqb_spec alignment 0) as [->|Hnz];
      [by rewrite orb_true_r|].
    rewrite orb_false_r.
    destruct (Z.eqb_spec
                (Z.land alignment ((alignment - 1) mod 2 ^ (8 * ptr_bytes))) 0)
      as [Hland|Hland]; simpl; [|done].
    destruct (Z.eqb_spec (alignment mod ptr_bytes) 0) as [Hmod|Hmod];
      simpl; [|done].
    destruct Hnot. split; [|done]. apply Hpow; [lia | done].
  - intros Hlt [(k & Hk & Hak) Hmod].
    rewrite Z.mod_small in Hmod by lia.
    pose proof (Z.pow_pos_nonneg 2 k). lia.
  - intros [Hk Hmod]. unfold posix_memalign.
    assert (Hpos : 0 < alignment).
    { destruct Hk as (k & Hk & ->). apply Z.pow_pos_nonneg; lia. }
    apply Hpow in Hk; [|done]. rewrite Hk, Hmod.
    destruct (Z.eqb_spec alignment 0); [lia|]. simpl.
    destruct (memalign (errno ms) alignment size) as [p e]. simpl.
    by destruct (p =? 0).
Qed.

Lemma posix_memalign_alignment_witness :
  posix_memalign 4 (fun _ _ _ => (4096, 0)) {| memptr := 0; errno := 0 |} 24 100
  = (EINVAL, {| memptr := 0; errno := 0 |}).
Proof.
  refine (proj1 (posix_memalign_alignment 4 (fun _ _ _ => (4096, 0))
                   {| memptr := 0; errno := 0 |} 24 100 _ _) _).
  - reflexivity.
  - by_eval.
  - intros [(k & Hk & Hpow) _].
    assert (Hk5 : k < 5).
    { destruct (Z.lt_ge_cases k 5) as [|Hge]; [done|].
      pose proof (Z.pow_le_mono_r 2 5 k ltac:(lia) Hge) as Hle.
      change (2 ^ 5) with 32 in Hle. lia. }
    assert (Hcases : k = 0 \/ k = 1 \/ k = 2 \/ k = 3 \/ k = 4) by lia.
    destruct Hcases as [->|[->|[->|[->| ->]]]]; discriminate Hpow.
Defined.

(** ** C strings *)

Lemma streq_eq (a b : Opt.cstring) : Opt.streq a b = true <-> a = b.
Proof.
  revert b. induction a as [|x a IH]; intros [|y b]; simpl; try done.
  rewrite andb_true_iff, Z.eqb_eq, IH. split.
  - by intros [-> ->].
  - by intros [= -> ->].
Qed.

Lemma strchr_None (s : Opt.cstring) (c : Z) :
  Opt.strchr s c = None <-> c ∉ s.
Proof.
  induction s as [|x s IH]; simpl.
  - split; [intros _; apply not_elem_of_nil | done].
  - rewrite not_elem_of_cons. destruct (Z.eqb_spec x c) as [->|Hne].
    + split; [done | by intros [? _]].
    + destruct (Opt.strchr s c); simpl.
      * split; [done|]. intros [_ Hs]. by apply IH in Hs.
      * split; [|done]. intros _. split; [congruence | by apply IH].
Qed.

Lemma strchr_split (s key value : Opt.cstring) (c : Z) :
  c ∉ key -> s = key ++ c :: value -> Opt.strchr s c = Some (length key).
Proof.
  intros Hkey ->. induction key as [|x key IH]; simpl.
  - by rewrite Z.eqb_refl.
  - apply not_elem_of_cons in Hkey as [Hx Hkey].
    destruct (Z.eqb_spec x c); [congruence|]. by rewrite IH.
Qed.

(** ** [opt_streamid] *)

(** X9: [opt_streamid] looks for the ':' in the first 15 characters of its
    argument only.  Without one there, also when one comes later, it logs
    the fatal message, returns [AVERROR(EINVAL)] and leaves the dictionary
    as it is. *)
Theorem opt_streamid_no_colon
  (D : Type) (av_dict_set : D -> Opt.cstring -> Opt.cstring -> Z -> Z * D)
  (o : Opt.StreamidState D) (opt arg : Opt.cstring) :
  58 ∉ take 15 arg ->
  Opt.opt_streamid D av_dict_set o opt arg =
  (AVERROR EINVAL,
   {| Opt.streamid := Opt.streamid o;
      Opt.streamid_trace :=
        Opt.streamid_trace o
        ++ [Opt.av_log Opt.AV_LOG_FATAL (Opt.MsgInvalidStreamid arg opt)] |}).
Proof.
  intros Hno. unfold Opt.opt_streamid, Opt.av_strlcpy. simpl.
  apply strchr_None in Hno. by rewrite Hno.
Qed.

(** X10: for an argument [index:value] whose index has fewer than 15
    characters and no ':', [opt_streamid] returns what [av_dict_set]
    returns for the index and the value cut to [14 - length index]
    characters: index, ':' and value share a buffer of 16 bytes. *)
Theorem opt_streamid_split
  (D : Type) (av_dict_set : D -> Opt.cstring -> Opt.cstring -> Z -> Z * D)
  (o : Opt.StreamidState D) (opt index value : Opt.cstring) :
  58 ∉ index ->
  (length index < 15)%nat ->
  Opt.opt_streamid D av_dict_set o opt (index ++ 58 :: value) =
  let r := av_dict_set (Opt.streamid o) index
                       (take (14 - length index) value) 0 in
  (fst r, {| Opt.streamid := snd r;
             Opt.streamid_trace := Opt.streamid_trace o |}).
Proof.
  intros Hidx Hlen. unfold Opt.opt_streamid, Opt.av_strlcpy.
  change (16 - 1)%nat with 15%nat.
  assert (Hcut : take 15 (index ++ 58 :: value) =
                 index ++ 58 :: take (14 - length index) value).
  { rewrite take_app. rewrite take_ge by lia.
    replace (15 - length index)%nat with (S (14 - length index)) by lia.
    done. }
  rewrite Hcut.
  rewrite (strchr_split _ index (take (14 - length index) value) 58 Hidx eq_refl).
  rewrite take_app_length.
  rewrite (cons_middle 58), app_assoc.
  rewrite drop_app_length' by (rewrite length_app; simpl; lia).
  simpl. by destruct (av_dict_set _ _ _ _).
Qed.

(** ** [parse_and_set_vsync] and [opt_vsync] *)

(** X11: for the option of a stream ([is_global] is 0),
    [parse_and_set_vsync] accepts the five names cfr, vfr, passthrough,
    drop and auto, as [av_strcasecmp] compares them: it then stores a
    method in [*vsync_var], logs nothing and returns 0.  For any other
    argument it logs the fatal message, returns [AVERROR(EINVAL)] and
    changes neither variable; [parse_number] plays no part. *)
Theorem parse_and_set_vsync_stream
  (av_strcasecmp : Opt.cstring -> Opt.cstring -> Z)
  (parse_number : Opt.cstring -> Opt.cstring -> Z -> Z -> Z * Z)
  (arg : Opt.cstring) (p : Opt.VsyncVar) (file_idx st_idx : Z)
  (st : Opt.VsyncState) :
  let result :=
    Opt.parse_and_set_vsync av_strcasecmp parse_number arg p
                            file_idx st_idx 0 st in
  let known :=
    av_strcasecmp arg (Opt.cstr "cfr") = 0 \/
    av_strcasecmp arg (Opt.cstr "vfr") = 0 \/
    av_strcasecmp arg (Opt.cstr "passthrough") = 0 \/
    av_strcasecmp arg (Opt.cstr "drop") = 0 \/
    av_strcasecmp arg (Opt.cstr "auto") = 0 in
  (known ->
   fst result = 0 /\
   exists v, snd result = Opt.vsync_write p v st /\
             v ∈ [Opt.VSYNC_CFR; Opt.VSYNC_VFR; Opt.VSYNC_PASSTHROUGH;
                  Opt.VSYNC_DROP; Opt.VSYNC_AUTO]) /\
  (~ known ->
   result =
   (AVERROR EINVAL,
    Opt.vsync_log st Opt.AV_LOG_FATAL
                  (Opt.MsgInvalidFpsMode arg file_idx st_idx))).
Proof.
  cbv zeta. unfold Opt.parse_and_set_vsync. simpl.
  destruct (Z.eqb_spec (av_strcasecmp arg (Opt.cstr "cfr")) 0) as [H1|H1];
    [split; [intros _; split; [done|]; eexists; split; [done|repeat constructor]
            | intros Hn; destruct Hn; auto]|].
  destruct (Z.eqb_spec (av_strcasecmp arg (Opt.cstr "vfr")) 0) as [H2|H2];
    [split; [intros _; split; [done|]; eexists; split; [done|repeat constructor]
            | intros Hn; destruct Hn; auto]|].
  destruct (Z.eqb_spec (av_strcasecmp arg (Opt.cstr "passthrough")) 0)
    as [H3|H3];
    [split; [intros _; split; [done|]; eexists; split; [done|repeat constructor]
            | intros Hn; destruct Hn; auto]|].
  destruct (Z.eqb_spec (av_strcasecmp arg (Opt.cstr "drop")) 0) as [H4|H4];
    [split; [intros _; split; [done|]; eexists; split; [done|repeat constructor]
            | intros Hn; destruct Hn; auto 6]|].
  destruct (Z.eqb_spec (av_strcasecmp arg (Opt.cstr "auto")) 0) as [H5|H5];
    [split; [intros _; split; [done|]; eexists; split; [done|repeat constructor]
            | intros Hn; destruct Hn; auto 6]|].
  split; [|done]. intros [?|[?|[?|[?|?]]]]; done.
Qed.

(** X12: once [video_sync_method] is not [VSYNC_AUTO], [opt_vsync] accepts
    any argument that is none of cfr, vfr, passthrough and drop: it logs
    the deprecation warning only, leaves the method as it is and returns
    0.  The argument is not even parsed as a number. *)
Theorem opt_vsync_ignores_unknown_value
  (av_strcasecmp : Opt.cstring -> Opt.cstring -> Z)
  (parse_number : Opt.cstring -> Opt.cstring -> Z -> Z -> Z * Z)
  (st : Opt.VsyncState) (opt arg : Opt.cstring) :
  Opt.video_sync_method st <> Opt.VSYNC_AUTO ->
  av_strcasecmp arg (Opt.cstr "cfr") <> 0 ->
  av_strcasecmp arg (Opt.cstr "vfr") <> 0 ->
  av_strcasecmp arg (Opt.cstr "passthrough") <> 0 ->
  av_strcasecmp arg (Opt.cstr "drop") <> 0 ->
  Opt.opt_vsync av_strcasecmp parse_number st opt arg =
  (0, Opt.vsync_log st Opt.AV_LOG_WARNING Opt.MsgVsyncDeprecated).
Proof.
  intros Hm H1 H2 H3 H4. unfold Opt.opt_vsync, Opt.parse_and_set_vsync.
  apply Z.eqb_neq in H1, H2, H3, H4, Hm. rewrite H1, H2, H3, H4. simpl.
  by rewrite Hm.
Qed.

Lemma opt_vsync_ignores_unknown_value_witness :
  let cmp := fun a b => if Opt.streq a b then 0 else 1 in
  let st := {| Opt.video_sync_method := Opt.VSYNC_CFR;
               Opt.stream_vsync := Opt.VSYNC_AUTO;
               Opt.vsync_trace := [] |} in
  Opt.opt_vsync cmp (fun _ _ _ _ => (-1, 0)) st (Opt.cstr "vsync")
                (Opt.cstr "banana") =
  (0, Opt.vsync_log st Opt.AV_LOG_WARNING Opt.MsgVsyncDeprecated).
Proof.
  apply (opt_vsync_ignores_unknown_value
           (fun a b => if Opt.streq a b then 0 else 1)
           (fun _ _ _ _ => (-1, 0))); by_eval.
Defined.

Lemma opt_streamid_no_colon_witness :
  fst (Opt.opt_streamid (list (Opt.cstring * Opt.cstring))
         (fun d k v _ => (0, (k, v) :: d))
         {| Opt.streamid := []; Opt.streamid_trace := [] |}
         (Opt.cstr "streamid") (Opt.cstr "123456789012345:7")) =
  AVERROR EINVAL.
Proof.
  rewrite (opt_streamid_no_colon (list (Opt.cstring * Opt.cstring))
             (fun d k v _ => (0, (k, v) :: d))
             {| Opt.streamid := []; Opt.streamid_trace := [] |}
             (Opt.cstr "streamid") (Opt.cstr "123456789012345:7")).
  - reflexivity.
  - vm_compute. intros H. repeat (apply elem_of_cons in H as [H|H];
      [discriminate H|]). by apply elem_of_nil in H.
Defined.

Lemma opt_streamid_split_witness :
  Opt.opt_streamid (list (Opt.cstring * Opt.cstring))
    (fun d k v _ => (0, (k, v) :: d))
    {| Opt.streamid := []; Opt.streamid_trace := [] |}
    (Opt.cstr "streamid") (Opt.cstr "1" ++ 58 :: Opt.cstr "0x1234567890abcdef") =
  (0, {| Opt.streamid := [(Opt.cstr "1", Opt.cstr "0x1234567890a")];
         Opt.streamid_trace := [] |}).
Proof.
  apply (opt_streamid_split (list (Opt.cstring * Opt.cstring))
           (fun d k v _ => (0, (k, v) :: d))
           {| Opt.streamid := []; Opt.streamid_trace := [] |}
           (Opt.cstr "streamid") (Opt.cstr "1")
           (Opt.cstr "0x1234567890abcdef")).
  - vm_compute. intros H. repeat (apply elem_of_cons in H as [H|H];
      [discriminate H|]). by apply elem_of_nil in H.
  - vm_compute. lia.
Defined.

(** ** [assert_file_overwrite] *)

Lemma c_true_land_false (x m : Z) : c_true (Z.land x m) = false <-> Z.land x m = 0.
Proof. apply c_true_false. Qed.

(** The loop over the inputs returns exactly when the output is the url of
    an input whose format opens a file. *)
Lemma same_as_input_spec
  (filename : Opt.cstring) (files : list Opt.InputUrl) (i : nat) (tr : Opt.Trace) :
  match Opt.same_as_input filename files i tr with
  | None =>
    forall j f, files !! j = Some f ->
                Z.land (Opt.url_iformat_flags f) Opt.AVFMT_NOFILE = 0 ->
                Opt.url f <> filename
  | Some (ret, tr') =>
    ret = AVERROR EINVAL /\
    (exists j f, files !! j = Some f /\
                 Z.land (Opt.url_iformat_flags f) Opt.AVFMT_NOFILE = 0 /\
                 Opt.url f = filename) /\
    exists k, tr' = tr ++ [Opt.av_log Opt.AV_LOG_FATAL (Opt.MsgSameAsInput filename k);
                           Opt.av_log Opt.AV_LOG_WARNING Opt.MsgCannotEditInPlace]
  end.
Proof.
  revert i. induction files as [|file rest IH]; intros i; simpl.
  - intros j f Hj. done.
  - destruct (c_true (Z.land (Opt.url_iformat_flags file) Opt.AVFMT_NOFILE))
      eqn:Hflag.
    + specialize (IH (S i)).
      destruct (Opt.same_as_input filename rest (S i) tr) as [[ret tr']|].
      * destruct IH as (Hr & (j & f & Hj & Hf & Hu) & Htr).
        split; [done|]. split; [|done]. by exists (S j), f.
      * intros [|j] f Hj Hf; [|by apply (IH j)].
        injection Hj as <-. apply c_true_true in Hflag. done.
    + apply c_true_false in Hflag.
      destruct (Opt.streq filename (Opt.url file)) eqn:Heq.
      * apply streq_eq in Heq. split; [done|]. split; [|by eexists].
        by exists 0%nat, file.
      * specialize (IH (S i)).
        destruct (Opt.same_as_input filename rest (S i) tr) as [[ret tr']|].
        -- destruct IH as (Hr & (j & f & Hj & Hf & Hu) & Htr).
           split; [done|]. split; [|done]. by exists (S j), f.
        -- intros [|j] f Hj Hf; [|by apply (IH j)].
           injection Hj as <-. intros Hu.
           assert (Opt.streq filename (Opt.url file) = true)
             by (by apply streq_eq). congruence.
Qed.

(** X13: [assert_file_overwrite] never lets an output of the file protocol
    through that is the url of an input whose format opens a file: when it
    returns 0 for such an output, no such input has that url, whatever the
    flags -y and -n and the answer of the user. *)
Theorem assert_file_overwrite_not_in_place
  (file_overwrite no_file_overwrite stdin_interaction : Z)
  (input_urls : list Opt.InputUrl) (env : Opt.OverwriteEnv)
  (filename : Opt.cstring) (tr : Opt.Trace) :
  fst (Opt.assert_file_overwrite file_overwrite no_file_overwrite
         stdin_interaction input_urls env filename tr) = 0 ->
  Opt.proto_name env = Some (Opt.cstr "file") ->
  forall j f, input_urls !! j = Some f ->
              Z.land (Opt.url_iformat_flags f) Opt.AVFMT_NOFILE = 0 ->
              Opt.url f <> filename.
Proof.
  intros Hret Hproto.
  assert (Hfile : Opt.is_file_protocol env = true)
    by (unfold Opt.is_file_protocol; by rewrite Hproto).
  unfold Opt.assert_file_overwrite in Hret. rewrite Hfile in Hret.
  destruct (c_true file_overwrite && c_true no_file_overwrite);
    [discriminate Hret|].
  destruct (Opt.overwrite_check file_overwrite no_file_overwrite
              stdin_interaction env filename tr) as [[ret tr']|tr'] eqn:Hchk.
  - unfold Opt.overwrite_check in Hchk.
    repeat match type of Hchk with
           | context [if ?c then _ else _] => destruct c
           end; try discriminate Hchk;
      injection Hchk as <- _; discriminate Hret.
  - pose proof (same_as_input_spec filename input_urls 0 tr') as Hloop.
    destruct (Opt.same_as_input filename input_urls 0 tr') as [[ret tr'']|];
      [|done].
    destruct Hloop as (-> & _). discriminate Hret.
Qed.

(** X14: [assert_file_overwrite] returns [AVERROR_EXIT] exactly when -y is
    not given, the output is an existing file, and either the user cannot
    be asked (no stdin interaction, or -n given) or answers no. *)
Theorem assert_file_overwrite_exit_iff
  (file_overwrite no_file_overwrite stdin_interaction : Z)
  (input_urls : list Opt.InputUrl) (env : Opt.OverwriteEnv)
  (filename : Opt.cstring) (tr : Opt.Trace) :
  fst (Opt.assert_file_overwrite file_overwrite no_file_overwrite
         stdin_interaction input_urls env filename tr) = Opt.AVERROR_EXIT <->
  file_overwrite = 0 /\
  Opt.is_file_protocol env = true /\
  Opt.avio_check env = 0 /\
  (stdin_interaction = 0 \/ no_file_overwrite <> 0 \/ Opt.yesno env = 0).
Proof.
  unfold Opt.assert_file_overwrite, Opt.overwrite_check.
  pose proof (c_true_true file_overwrite) as Hfo.
  pose proof (c_true_true no_file_overwrite) as Hnfo.
  pose proof (c_true_true stdin_interaction) as Hsi.
  pose proof (c_true_true (Opt.yesno env)) as Hyn.
  pose proof (c_true_false file_overwrite) as Hfo'.
  pose proof (c_true_false no_file_overwrite) as Hnfo'.
  pose proof (c_true_false stdin_interaction) as Hsi'.
  pose proof (c_true_false (Opt.yesno env)) as Hyn'.
  destruct (c_true file_overwrite), (c_true no_file_overwrite),
    (c_true stdin_interaction), (c_true (Opt.yesno env)),
    (Opt.is_file_protocol env), (Z.eqb_spec (Opt.avio_check env) 0);
    simpl;
    repeat match goal with
           | |- context [Opt.same_as_input ?a ?b ?c ?d] =>
             let H := fresh "Hloop" in
             pose proof (same_as_input_spec a b c d) as H;
             destruct (Opt.same_as_input a b c d) as [[? ?]|];
             [destruct H as (-> & _)|]
           end; simpl;
    (split; [intros Hr; try discriminate Hr
            | intros (H1 & H2 & H3 & H4)]);
    try done;
    try (repeat split; try done;
         first [ by apply Hfo' | by left; apply Hsi'
               | by right; left; apply Hnfo | by right; right; apply Hyn' ]);
    try (exfalso; first [ by (assert (file_overwrite <> 0) by (by apply Hfo))
                        | by destruct H4 as [H4|[H4|H4]];
                          [ assert (stdin_interaction <> 0) by (by apply Hsi)
                          | assert (no_file_overwrite = 0) by (by apply Hnfo')
                          | assert (Opt.yesno env <> 0) by (by apply Hyn) ] ]).
Qed.

(** X15: [assert_file_overwrite] asks the user ([read_yesno]) exactly when
    neither -y nor -n is given, stdin interaction is on, and the output is
    an existing file; all it does is add to the trace. *)
Theorem assert_file_overwrite_asks_iff
  (file_overwrite no_file_overwrite stdin_interaction : Z)
  (input_urls : list Opt.InputUrl) (env : Opt.OverwriteEnv)
  (filename : Opt.cstring) (tr : Opt.Trace) :
  exists new,
    snd (Opt.assert_file_overwrite file_overwrite no_file_overwrite
           stdin_interaction input_urls env filename tr) = tr ++ new /\
    (Opt.read_yesno ∈ new <->
     file_overwrite = 0 /\ no_file_overwrite = 0 /\ stdin_interaction <> 0 /\
     Opt.is_file_protocol env = true /\ Opt.avio_check env = 0).
Proof.
  unfold Opt.assert_file_overwrite, Opt.overwrite_check.
  pose proof (c_true_true file_overwrite) as Hfo.
  pose proof (c_true_true no_file_overwrite) as Hnfo.
  pose proof (c_true_true stdin_interaction) as Hsi.
  pose proof (c_true_false file_overwrite) as Hfo'.
  pose proof (c_true_false no_file_overwrite) as Hnfo'.
  pose proof (c_true_false stdin_interaction) as Hsi'.
  destruct (c_true file_overwrite), (c_true no_file_overwrite),
    (c_true stdin_interaction), (c_true (Opt.yesno env)),
    (Opt.is_file_protocol env), (Z.eqb_spec (Opt.avio_check env) 0);
    simpl;
    repeat match goal with
           | |- context [Opt.same_as_input ?a ?b ?c ?d] =>
             let H := fresh "Hloop" in
             pose proof (same_as_input_spec a b c d) as H;
             destruct (Opt.same_as_input a b c d) as [[? ?]|];
             [destruct H as (_ & _ & k & ->)|]
           end; simpl;
    rewrite <- ?app_assoc; simpl;
    (eexists; split;
     [ first [ reflexivity | by rewrite app_nil_r ] |]);
    rewrite ?elem_of_cons, ?elem_of_nil;
    intuition (try discriminate; try congruence).
Qed.

(** ** [opt_target] *)






(** X18: a prefix pal-, ntsc- or film- decides the norm alone: with one,
    [opt_target] does the same whatever the inputs are. *)
Theorem opt_target_prefix_ignores_inputs
  (files files' : list (list Opt.TargetStream)) (tr : Opt.Trace)
  (opt arg : Opt.cstring) :
  Opt.strneq arg (Opt.cstr "pal-") 4 = true \/
  Opt.strneq arg (Opt.cstr "ntsc-") 5 = true \/
  Opt.strneq arg (Opt.cstr "film-") 5 = true ->
  Opt.opt_target files tr opt arg = Opt.opt_target files' tr opt arg.
Proof.
  intros Hprefix. unfold Opt.opt_target.
  assert (Hn : Opt.target_norm files arg tr = Opt.target_norm files' arg tr).
  { unfold Opt.target_norm.
    destruct (Opt.strneq arg (Opt.cstr "pal-") 4); [done|].
    destruct (Opt.strneq arg (Opt.cstr "ntsc-") 5); [done|].
    destruct (Opt.strneq arg (Opt.cstr "film-") 5); [done|].
    by destruct Hprefix as [?|[?|?]]. }
  by rewrite Hn.
Qed.


(** ** The further properties at sample inputs *)

Lemma correct_leaves_input_alone_witness :
  input_files (correct_input_start_times 0 0 rescale_q st_sync_pair) !! 0%nat =
  Some (set_start_time_effective (sample_input 1000000 5 0 (-1)) 1000000).
Proof.
  apply (correct_leaves_input_alone 0 0 rescale_q st_sync_pair 0%nat
           (sample_input 1000000 5 0 (-1))).
  - reflexivity.
  - right. left. reflexivity.
Defined.

Lemma apply_sync_offsets_without_references_witness :
  let st := registry [sample_input 10 2 3 (-1); sample_input 20 2 3 1] in
  apply_sync_offsets 0 0 st = (0, st).
Proof.
  apply (apply_sync_offsets_without_references 0 0
           (registry [sample_input 10 2 3 (-1); sample_input 20 2 3 1])).
  intros i f Hf. destruct i as [|[|i]]; [| |discriminate Hf];
    injection Hf as <-; [left | right]; reflexivity.
Defined.

Lemma apply_sync_offsets_copy_ts_changes_nothing_witness :
  input_files (snd (apply_sync_offsets 1 0 st_sync_pair)) =
  input_files st_sync_pair.
Proof.
  apply (apply_sync_offsets_copy_ts_changes_nothing 1 0 st_sync_pair).
  - discriminate.
  - reflexivity.
Defined.

Lemma apply_sync_offsets_twice_witness :
  let self := sample_input 1200000 10 0 0 in
  let ref := sample_input 1000000 5 0 (-1) in
  let adjustment := sync_adjustment 0 self ref 1200000 1000000 in
  let once := snd (apply_sync_offsets 0 0 st_sync_pair) in
  let twice := snd (apply_sync_offsets 0 0 once) in
  ts_offset <$> input_files once !! 1%nat = Some (add64 10 adjustment) /\
  ts_offset <$> input_files twice !! 1%nat =
    Some (add64 (add64 10 adjustment) adjustment).
Proof.
  apply (apply_sync_offsets_twice 0 0 st_sync_pair 1%nat
           (sample_input 1200000 10 0 0) (sample_input 1000000 5 0 (-1))
           1200000 1000000); try reflexivity.
  - by_eval.
  - discriminate.
  - left. reflexivity.
  - intros Hc. exact Hc.
  - intros j f Hj Hf. destruct j as [|j]; [|lia].
    injection Hf as <-. by_eval.
Defined.

Lemma assert_file_overwrite_not_in_place_witness :
  Opt.url {| Opt.url_iformat_flags := 0; Opt.url := Opt.cstr "in.mp4" |}
  <> Opt.cstr "out.mp4".
Proof.
  apply (assert_file_overwrite_not_in_place 0 0 1
           [ {| Opt.url_iformat_flags := 0; Opt.url := Opt.cstr "in.mp4" |} ]
           {| Opt.proto_name := Some (Opt.cstr "file");
              Opt.avio_check := -2; Opt.yesno := 0 |}
           (Opt.cstr "out.mp4") [] eq_refl eq_refl 0%nat
           {| Opt.url_iformat_flags := 0; Opt.url := Opt.cstr "in.mp4" |}).
  - reflexivity.
  - reflexivity.
Defined.



Lemma opt_target_prefix_ignores_inputs_witness :
  let video := {| Opt.codec_type := Opt.AVMEDIA_TYPE_VIDEO;
                  Opt.target_time_base := {| num := 1; den := 25 |} |} in
  Opt.opt_target [] [] (Opt.cstr "target") (Opt.cstr "ntsc-vcd") =
  Opt.opt_target [[video]] [] (Opt.cstr "target") (Opt.cstr "ntsc-vcd").
Proof.
  apply (opt_target_prefix_ignores_inputs [] _ [] (Opt.cstr "target")
           (Opt.cstr "ntsc-vcd")).
  right. left. reflexivity.
Defined.

